(** * Survey scoring: APHAB and IOI-HA scripts

    A shallow embedding of the scoring scripts [aphab.py],
    [aphab_per_style.py], [ioi_ha.py] and [BtoA.py].

    Conventions of the embedding.
    - A pandas float cell is either NaN or a number.  Numbers are exact
      rationals ([Qc], with Leibniz equality); the rounding of IEEE
      arithmetic is not modelled.  NaN is [None].  The theorems
      about all exports equate a mean only with the same computation
      over the same values.
    - A DataFrame is the list of its rows, in row order.
    - A [groupby(...).apply(np.mean)] is the finite map from group key to
      the mean of the group; pandas writes its rows in key order.
    - The model of a script is its data processing, up to the tables it
      prints and writes.  The seaborn box plots that the scripts draw from
      these tables afterwards are not modelled.  [Ok] is the script with
      its tables built; [Raise] is the first uncaught Python exception on
      the way there. *)

From Stdlib Require Import ZArith QArith Qcanon.
From stdpp Require Import base numbers option list strings gmap fin_maps.

Open Scope Z_scope.
#[local] Set Warnings "-clear-no-such-hyp".

(** ** Python values and exceptions *)

(** A float cell: [None] is NaN. *)
Abbreviation cell := (option Qc).

(** The float of an int. *)
Definition Qz (z : Z) : Qc := Qc_of_Z z.

(** [isnull] of a float cell. *)
Definition isnull (c : cell) : bool :=
  match c with None => true | Some _ => false end.

(** Comparisons of float cells: any comparison with NaN is [False]. *)
Definition cell_le (a b : cell) : bool :=
  match a, b with
  | Some x, Some y => bool_decide (x ≤ y)%Qc
  | _, _ => false
  end.

Definition cell_gt (a b : cell) : bool :=
  match a, b with
  | Some x, Some y => bool_decide (y < x)%Qc
  | _, _ => false
  end.

Inductive exn := ValueError | KeyError | NameError | TypeError.

Inductive res (A : Type) :=
  | Ok (a : A)
  | Raise (e : exn).
Arguments Ok {A} a.
Arguments Raise {A} e.

#[global] Instance res_ret : MRet res := fun A a => Ok a.
#[global] Instance res_bind : MBind res := fun A B f m =>
  match m with Ok a => f a | Raise e => Raise e end.

#[global] Instance exn_eq_dec : EqDecision exn.
Proof. solve_decision. Defined.

(** ** The pandas operations the scripts use *)

Module Frame.

(** A row of a wide table after the leading columns were cut off: the id
    columns (the subject, and what a script adds to it) and the question
    columns, already converted by [astype(float)]. *)
Record wide (I : Type) := Wide { w_id : I; w_resp : list cell }.
Arguments Wide {I} _ _.
Arguments w_id {I} _.
Arguments w_resp {I} _.

#[global] Instance wide_eq_dec {I} `{EqDecision I} : EqDecision (wide I).
Proof. solve_decision. Defined.

(** A row of a melted table: the id columns, [variable] and [value]. *)
Record melted (I : Type) :=
  Melted { m_id : I; m_variable : Z; m_value : cell }.
Arguments Melted {I} _ _ _.
Arguments m_id {I} _.
Arguments m_variable {I} _.
Arguments m_value {I} _.

(** [data.columns = colnames], where [colnames] is ['subject', 1, ..., n]:
    pandas raises [ValueError] when the number of names differs from the
    number of columns. *)
Definition set_columns {I} (n : nat) (t : list (wide I))
  : res (list (wide I)) :=
  if decide (Forall (fun r => length (w_resp r) = n) t) then Ok t
  else Raise ValueError.

(** The cell of the column named [q] (names are 1, 2, ...). NaN stands for
    a column that does not exist; after [set_columns n] that does not
    occur for 1 <= q <= n. *)
Definition column {I} (q : Z) (r : wide I) : cell :=
  if bool_decide (1 ≤ q) then default None (w_resp r !! Z.to_nat (q - 1))
  else None.

(** [pd.melt(data, id_vars=..., value_vars=vars)]: one block of rows
    per variable, in the order of [vars]; inside a block the rows of the
    wide table in their order. *)
Definition melt {I} (vars : list Z) (t : list (wide I)) : list (melted I) :=
  q ← vars; (fun r => Melted (w_id r) q (column q r)) <$> t.

(** [Series.unique()]: the distinct values in order of first appearance. *)
Fixpoint unique {A} `{EqDecision A} (l : list A) : list A :=
  match l with
  | [] => []
  | x :: l' => x :: filter (fun y => y ≠ x) (unique l')
  end.

(** A float key used in a dict with int keys: it finds the int it is
    equal to, if it is a whole number. *)
Definition as_int (x : Qc) : option Z :=
  if decide (Qden x = 1%positive) then Some (Qnum x) else None.

(** [Series.map(d)] on one float cell, [d] a dict from int to int: a value
    that is not a key of [d] (NaN included) becomes NaN. *)
Definition map_dict (d : gmap Z Z) (v : cell) : cell :=
  x ← v; k ← as_int x; Qz <$> d !! k.

(** The sum of a list of numbers. *)
Definition Qsum (l : list Qc) : Qc := foldr Qcplus (Qz 0) l.

(** The present (non-NaN) values of a column. *)
Definition present (l : list cell) : list Qc := omap id l.

(** [np.mean] of a pandas Series, which is [Series.mean()]: NaN is
    skipped, and the mean of no value is NaN. *)
Definition nanmean (l : list cell) : cell :=
  match present l with
  | [] => None
  | xs => Some (Qsum xs / Qz (Z.of_nat (length xs)))%Qc
  end.

(** [groupby(key)]: the rows of each key, in row order. *)
Definition groupby {A K} `{Countable K} (key : A → K) (data : list A)
  : gmap K (list A) :=
  foldr (fun r g => <[key r := r :: default [] (g !! key r)]> g) ∅ data.

(** [groupby(key)[col].apply(np.mean)]. *)
Definition groupby_mean {A K} `{Countable K} (key : A → K) (col : A → cell)
    (data : list A) : gmap K cell :=
  (fun rows => nanmean (col <$> rows)) <$> groupby key data.

End Frame.

(** ** aphab.py *)

Module Aphab.
Import Frame.

(** A cell of the [subscale] column: the int it is created with, or the
    name written by the loop. *)
Abbreviation label := (Z + string)%type.

(** A row of the long table with all its columns. *)
Record row := Row {
  subject : string;
  q_num : Z;
  value : cell;
  reversed : bool;
  score : cell;
  subscale : label
}.

#[global] Instance row_eq_dec : EqDecision row.
Proof. solve_decision. Defined.

(** [scores = [99, 87, 75, 50, 25, 12, 1]] *)
Definition scores : list Z := [99; 87; 75; 50; 25; 12; 1].

(** [enumerate(l, start=1)] *)
Definition enumerate1 {A} (l : list A) : list (Z * A) :=
  imap (fun i x => (1 + Z.of_nat i, x)) l.

(** [d = {}; for idx, score in enumerate(l, start=1): d[idx] = score] *)
Definition make_key (l : list Z) : gmap Z Z :=
  foldl (fun d p => <[p.1 := p.2]> d) ∅ (enumerate1 l).

Definition not_reversed_score : gmap Z Z := make_key scores.

(** [scores.reverse()] comes between the two loops. *)
Definition reversed_score : gmap Z Z := make_key (reverse scores).

(** [data['q_num'].isin([1, 16, 19, 9, 11, 21])] *)
Definition is_reversed (q : Z) : bool :=
  bool_decide (q ∈ [1; 16; 19; 9; 11; 21]).

(** The [np.where] that fills the [score] column. *)
Definition score_of (rev : bool) (v : cell) : cell :=
  if rev then map_dict reversed_score v else map_dict not_reversed_score v.

Definition EC : list Z := [4; 10; 12; 14; 15; 23].
Definition BN : list Z := [1; 6; 7; 16; 19; 24].
Definition RV : list Z := [2; 5; 9; 11; 18; 21].
Definition AV : list Z := [3; 8; 13; 17; 20; 22].

(** Lines 66-96: the columns [reversed] and [score], and the [subscale]
    column as [np.repeat(0, len(data))] creates it. *)
Definition add_scores (m : melted string) : row :=
  let rev := is_reversed (m_variable m) in
  Row (m_id m) (m_variable m) (m_value m) rev
      (score_of rev (m_value m)) (inl 0).

(** One turn of the loop of lines 106-114: the if/elif chain. A question
    in none of the four lists keeps the cell as it is. *)
Definition assign_subscale (r : row) : row :=
  let q := q_num r in
  let s : label :=
    if bool_decide (q ∈ EC) then inr "EC"
    else if bool_decide (q ∈ BN) then inr "BN"
    else if bool_decide (q ∈ RV) then inr "RV"
    else if bool_decide (q ∈ AV) then inr "AV"
    else subscale r in
  Row (subject r) q (value r) (reversed r) (score r) s.

(** Lines 118-134: the pairs (subject, subscale) with more than two
    unanswered questions, in the order the loops find them. *)
Definition find_missing (data : list row) : list (string * label) :=
  sub ← unique (subject <$> data);
  let single_sub_df := filter (fun r => subject r = sub) data in
  s ← unique (subscale <$> single_sub_df);
  let temp := filter (fun r => subscale r = s) single_sub_df in
  let x := length (filter (fun r => isnull (value r)) temp) in
  if decide (2 < x)%nat then [(sub, s)] else [].

(** Lines 138-140: for each pair, [data = data[-bools]]. *)
Definition remove_missing (missing_data : list (string * label))
    (data : list row) : list row :=
  foldl (fun d p =>
           filter (fun r => ¬ (subject r = p.1 ∧ subscale r = p.2)) d)
        data missing_data.

(** Line 149. *)
Definition subscale_scores (data : list row) : gmap (string * label) cell :=
  groupby_mean (fun r => (subject r, subscale r)) score data.

(** Lines 165-166. *)
Definition global_scores (data : list row) : gmap string cell :=
  groupby_mean subject score
    (filter (fun r => subscale r ∈ [inr "BN"; inr "EC"; inr "RV" : label]) data).

(** What the script prints and writes. *)
Record output := Output {
  missing_data : list (string * label);
  subscale_data : gmap (string * label) cell;
  global_data : gmap string cell
}.

(** Lines 59-114: the long table with its columns. *)
Definition organize (t : list (wide string)) : list row :=
  let data := melt (seqZ 1 27) t in
  let data := filter (fun m => m_variable m ∈ seqZ 0 25) data in
  assign_subscale <$> (add_scores <$> data).

(** Lines 118-166 on the long table. *)
Definition score_table (data : list row) : output :=
  let missing := find_missing data in
  let data := remove_missing missing data in
  Output missing (subscale_scores data) (global_scores data).

(** The script, from the table cut out of the export to the two score
    tables it writes (lines 53-176).  The box plots of lines 183-192 are
    drawn from these tables after they are written and are not part of
    the model: [Ok] is the script with its tables written. *)
Definition run (t : list (wide string)) : res output :=
  t ← set_columns 27 t;
  Ok (score_table (organize t)).

(** *** Notions used to state the properties *)

(** The rows of one (subject, subscale) group. *)
Definition group (data : list row) (s : string) (sc : label) : list row :=
  filter (fun r => subject r = s ∧ subscale r = sc) data.

(** The number of rows of a list whose raw response is missing, and the
    number whose score is missing. *)
Definition missing_values (g : list row) : nat :=
  length (filter (fun r => isnull (value r)) g).

Definition missing_scores (g : list row) : nat :=
  length (filter (fun r => score r = None) g).

(** A raw response that is a key of the scoring dicts. *)
Definition valid_code (x : Qc) : Prop := x ∈ Qz <$> seqZ 1 7.

(** An answer cell that is empty or holds a code of the scale. *)
Definition valid_answer (v : cell) : Prop :=
  match v with Some x => valid_code x | None => True end.

#[global] Instance valid_answer_dec v : Decision (valid_answer v).
Proof. destruct v; simpl; apply _. Defined.

(** The four question lists under their names. *)
Definition subscale_lists : list (string * list Z) :=
  [("EC", EC); ("BN", BN); ("RV", RV); ("AV", AV)].

(** A dict that is a bijection between the keys [ks] and the values [vs]. *)
Definition bijection_between (d : gmap Z Z) (ks vs : list Z) : Prop :=
  dom d = list_to_set ks
  ∧ (∀ v, v ∈ vs ↔ ∃ k, d !! k = Some v)
  ∧ (∀ k1 k2 v, d !! k1 = Some v → d !! k2 = Some v → k1 = k2).

(** The values of a dict listed by the keys 1 to 7. *)
Definition listing (d : gmap Z Z) : list (option Z) :=
  (fun k => d !! k) <$> seqZ 1 7.

(** The global score as the spec words it: the mean of the subject's
    subscale means that are in the subscale output, over BN, EC and RV. *)
Definition mean_of_subscale_means (sd : gmap (string * label) cell)
    (s : string) : cell :=
  nanmean (omap (fun sc => sd !! (s, sc)) [inr "BN"; inr "EC"; inr "RV" : label]).

End Aphab.

(** ** aphab_per_style.py *)

Module AphabStyle.
Import Frame Aphab.

(** [STYLES] *)
Definition STYLES : gmap Z string :=
  <[1 := "RIC_RT"]> (<[2 := "RIC_312"]> (<[3 := "mRIC_R"]> (<[4 := "ITE_R"]>
  (<[5 := "ITC_R"]> (<[6 := "CIC_312"]> (<[7 := "WiCROS"]> ∅)))))).

(** The id columns of the export: the subject and the style code. The
    code is given as what [int(style)] makes of the cell: [None] when
    [int] raises [ValueError] (an empty cell, text that is no integer). *)
Abbreviation raw_id := (string * option Z)%type.

(** The id columns after line 194: the subject and the style name. *)
Abbreviation styled_id := (string * string)%type.

(** Lines 193-194, one row: [STYLES[int(style)]]. *)
Definition name_style (w : wide raw_id) : res (wide styled_id) :=
  match (w_id w).2 with
  | None => Raise ValueError
  | Some k =>
      match STYLES !! k with
      | None => Raise KeyError
      | Some name => Ok (Wide ((w_id w).1, name) (w_resp w))
      end
  end.

(** Lines 193-194: the loop stops at the first row that raises. *)
Fixpoint name_styles (t : list (wide raw_id)) : res (list (wide styled_id)) :=
  match t with
  | [] => Ok []
  | w :: t' =>
      w' ← name_style w;
      t'' ← name_styles t';
      Ok (w' :: t'')
  end.

(** Lines 197-230: the long table, each row with its style. The
    [subscale] column is made later, in [score_aphab], with the value the
    row has here. *)
Definition organize (t : list (wide styled_id)) : list (string * row) :=
  (fun m => ((m_id m).2,
             add_scores (Melted (m_id m).1 (m_variable m) (m_value m))))
    <$> melt (seqZ 1 24) t.

(** The body of the loop of [score_aphab] for one style: lines 44-119. *)
Definition score_style (all_styles : list (string * row)) (style : string)
  : output :=
  let data := snd <$> filter (fun p => p.1 = style) all_styles in
  score_table (assign_subscale <$> data).

(** [score_aphab]: the tables of each style, in the order the styles
    first occur.  The body of the loop also draws two box plots from the
    tables of the style it has just written (lines 130-145); they are not
    part of the model, so the list is what the loop writes when no plot
    stops it. *)
Definition score_aphab (data : list (string * row)) : list (string * output) :=
  (fun style => (style, score_style data style)) <$> unique (fst <$> data).

(** The script, up to the tables of [score_aphab]. *)
Definition run (t : list (wide raw_id)) : res (list (string * output)) :=
  t ← set_columns 24 t;
  t ← name_styles t;
  Ok (score_aphab (organize t)).

(** *** Notions used to state the properties *)

(** A row of this export as a row of the export of [aphab.py]: the
    subject, the 24 answers, and three further columns left empty. *)
Definition as_aphab_row (w : wide styled_id) : wide string :=
  Wide (w_id w).1 (w_resp w ++ [None; None; None]).

(** The subjects of one style, as an export of [aphab.py]. *)
Definition style_export (t : list (wide styled_id)) (style : string)
  : list (wide string) :=
  as_aphab_row <$> filter (fun w => (w_id w).2 = style) t.

End AphabStyle.

(** ** ioi_ha.py *)

Module IoiHa.
Import Frame.

(** A dict of norms: question to a pair of numbers. *)
Abbreviation norms_dict := (gmap Z (Qc * Qc)).

Definition band (a b : Q) : Qc * Qc := (Q2Qc a, Q2Qc b).

Definition ind_mild_dict : norms_dict :=
  <[1 := band 3 5]> (<[2 := band 3 4]> (<[3 := band 3 4]> (<[4 := band 2 4]>
  (<[5 := band 3 4]> (<[6 := band 3 5]> (<[7 := band 3 4]> ∅)))))).

Definition ind_mod_dict : norms_dict :=
  <[1 := band 4.5 0.96]> (<[2 := band 3.52 1.08]> (<[3 := band 3.19 1.05]>
  (<[4 := band 3.84 1.17]> (<[5 := band 3.38 1.11]> (<[6 := band 3.38 1.1]>
  (<[7 := band 3.68 1.02]> ∅)))))).

(** The id columns after line 99: the subject and the [difficulty] cell,
    which is NaN ([None]) where no string was written. *)
Abbreviation tiered_id := (string * option string)%type.

(** Line 97: [bools = data[8] > 2]. *)
Definition bools (w : wide string) : bool :=
  cell_gt (column 8 w) (Some (Qz 2)).

(** Lines 98-99, one row: the first assignment creates the column, NaN
    where [bools] is false; the second writes where [bools == False]. *)
Definition difficulty_of (w : wide string) : option string :=
  let d : option string := if bools w then Some "mild-mod" else None in
  if bool_decide (bools w = false) then Some "mod-severe" else d.

Definition assign_difficulty (w : wide string) : wide tiered_id :=
  Wide (w_id w, difficulty_of w) (w_resp w).

(** A row of [data_long]. *)
Record long := Long {
  subject : string;
  difficulty : option string;
  question : Z;
  score : cell;
  WNL : string
}.

#[global] Instance long_eq_dec : EqDecision long.
Proof. solve_decision. Defined.

(** Lines 102-106 and 136: the melted table with an empty [WNL] column. *)
Definition melt_long (t : list (wide tiered_id)) : list long :=
  (fun m => Long (m_id m).1 (m_id m).2 (m_variable m) (m_value m) "")
    <$> melt (seqZ 1 8) t.

(** The variable [norms] of the loop: not yet assigned, the string
    ['error'], or a pair taken from a dict. *)
Inductive norms_var :=
  | Unbound
  | NormsError
  | Norms (n0 n1 : Qc).

#[global] Instance norms_var_eq_dec : EqDecision norms_var.
Proof. solve_decision. Defined.

(** [d[question]] under [except KeyError: norms = 'error']. *)
Definition lookup_norms (d : norms_dict) (q : Z) : norms_var :=
  match d !! q with
  | Some n => Norms n.1 n.2
  | None => NormsError
  end.

(** Lines 138-144: the first [try]. With neither test true, nothing is
    assigned and [norms] keeps the value of the turn before. *)
Definition select_norms (ind_mild : norms_dict) (norms : norms_var)
    (r : long) : norms_var :=
  if bool_decide (difficulty r = Some "mild_mod") then
    lookup_norms ind_mild (question r)
  else if bool_decide (difficulty r = Some "mod-severe") then
    lookup_norms ind_mod_dict (question r)
  else norms.

(** Lines 146-155: the second [try]. An unassigned [norms] raises
    [NameError], which no handler catches. For ['error'] the sum
    [norms[0]+norms[1]] is the string ['er'] and comparing a float with it
    raises [TypeError], caught as ['NA']. *)
Definition judge (norms : norms_var) (sc : cell) : res string :=
  match norms with
  | Unbound => Raise NameError
  | NormsError => Ok "NA"
  | Norms n0 n1 =>
      if cell_le sc (Some (n0 + n1)%Qc) && cell_le (Some (n0 - n1)%Qc) sc
      then Ok "wnl" else Ok "outside"
  end.

(** Lines 137-155: the loop over the rows, threading [norms]. *)
Fixpoint wnl_loop (ind_mild : norms_dict) (norms : norms_var)
    (rows : list long) : res (list long) :=
  match rows with
  | [] => Ok []
  | r :: rest =>
      let norms := select_norms ind_mild norms r in
      tag ← judge norms (score r);
      rest' ← wnl_loop ind_mild norms rest;
      Ok (Long (subject r) (difficulty r) (question r) (score r) tag :: rest')
  end.

(** What the script hands to the plots. *)
Record output := Output {
  data_long : list long;
  mild_mod : list long;
  mod_severe : list long
}.

(** The script; the dict of individual mild-moderate norms is an
    argument, [run ind_mild_dict] is the script as written. *)
Definition run (ind_mild : norms_dict) (t : list (wide string)) : res output :=
  t ← set_columns 8 t;
  let data := assign_difficulty <$> t in
  rows ← wnl_loop ind_mild Unbound (melt_long data);
  Ok (Output rows
        (filter (fun r => difficulty r = Some "mild-mod") rows)
        (filter (fun r => difficulty r = Some "mod-severe") rows)).

(** *** Notions used to state the properties *)

(** The value of [norms] at each turn of the loop, after the first [try]:
    the band the row is judged by. *)
Fixpoint norms_trace (ind_mild : norms_dict) (norms : norms_var)
    (rows : list long) : list norms_var :=
  match rows with
  | [] => []
  | r :: rest =>
      let norms := select_norms ind_mild norms r in
      norms :: norms_trace ind_mild norms rest
  end.

(** The tag a row gets when it is judged by [norms]. *)
Definition tag_by (norms : norms_var) (r : long) : string :=
  match judge norms (score r) with Ok tag => tag | Raise _ => "" end.

Definition retag (r : long) (norms : norms_var) : long :=
  Long (subject r) (difficulty r) (question r) (score r) (tag_by norms r).

(** Every row is of a mod-severe subject, or of a mild-mod subject and
    then on the same question as the row before it; [cur] is the question
    of the row before the list. *)
Fixpoint led_by_mod_severe (cur : option Z) (rows : list long) : Prop :=
  match rows with
  | [] => True
  | r :: rest =>
      (difficulty r = Some "mod-severe"
       ∨ (difficulty r = Some "mild-mod" ∧ cur = Some (question r)))
      ∧ led_by_mod_severe (Some (question r)) rest
  end.

(** Two rows that differ at most in the [WNL] column. *)
Definition same_response (r r' : long) : Prop :=
  subject r = subject r' ∧ difficulty r = difficulty r'
  ∧ question r = question r' ∧ score r = score r'.

(** The tag the spec asks for: by the band of the subject's own tier. *)
Definition tier_dict (d : option string) : norms_dict :=
  if bool_decide (d = Some "mild-mod") then ind_mild_dict else ind_mod_dict.

Definition expected_tag (r : long) : string :=
  match tier_dict (difficulty r) !! question r with
  | None => "NA"
  | Some (n0, n1) =>
      if cell_le (score r) (Some (n0 + n1)%Qc)
         && cell_le (Some (n0 - n1)%Qc) (score r)
      then "wnl" else "outside"
  end.

End IoiHa.

(** ** BtoA.py *)

Module BtoA.
Import Frame.

Definition question_key : list Z :=
  [20; 14; 18; 7; 11; 15; 6; 13; 12; 16; 17; 24; 5; 8; 10; 2; 23; 3; 21; 1;
   19; 22; 4; 9].

(** [data[question_key]]: the columns of the key, in its order. *)
Definition reorder (w : wide string) : list cell :=
  (fun q => column q w) <$> question_key.

(** The script: the reordered table it writes. *)
Definition run (t : list (wide string)) : res (list (list cell)) :=
  set_columns 27 t ≫= fun t : list (wide string) => Ok (reorder <$> t).

End BtoA.

(** ** Names of the output files *)

Module FileNames.

(** The character ['/']. *)
Definition slash : Ascii.ascii := Ascii.ascii_of_nat 47.

(** [s.split('/')]: the pieces between the slashes; a string without a
    slash is one piece. Strings are the bytes of their UTF-8 text. *)
Fixpoint split_slash (s : string) : list string :=
  match s with
  | EmptyString => [EmptyString]
  | String c s' =>
      if Ascii.eqb c slash then EmptyString :: split_slash s'
      else match split_slash s' with
           | [] => [String c EmptyString]
           | piece :: pieces => String c piece :: pieces
           end
  end.

(** [s.split('/')[-1]], which is also [os.path.split(s)[1]] (posix): what
    follows the last slash. *)
Definition after_last_slash (s : string) : string :=
  default EmptyString (last (split_slash s)).

(** [s[:-4]] *)
Definition drop_last_4 (s : string) : string :=
  String.substring 0 (String.length s - 4) s.

(** aphab.py, lines 159 and 175. *)
Definition aphab_subscale_out (filename : string) : string :=
  drop_last_4 (after_last_slash filename) +:+ "_SUBSCALE.csv".

Definition aphab_global_out (filename : string) : string :=
  drop_last_4 (after_last_slash filename) +:+ "_GLOBAL.csv".

(** aphab_per_style.py, lines 111 and 127. *)
Definition style_subscale_out (style filename : string) : string :=
  style +:+ "_SUBSCALE_" +:+ after_last_slash filename.

Definition style_global_out (style filename : string) : string :=
  style +:+ "_GLOBAL_" +:+ after_last_slash filename.

(** *** Notions used to state the properties *)

(** A string with no slash in it. *)
Fixpoint no_slash (s : string) : Prop :=
  match s with
  | EmptyString => True
  | String c s' => Ascii.eqb c slash = false ∧ no_slash s'
  end.

End FileNames.

(** ** Sample tables *)

Module Samples.
Import Frame.

Definition c (z : Z) : cell := Some (Qz z).
Definition na : cell := None.

(** One subject of the APHAB export: the answers to questions 1 to 24 and
    the three further columns of the export, left empty. *)
Definition aphab_row (s : string) (answers : list cell) : wide string :=
  Wide s (answers ++ [na; na; na]).

(** Every item answered so that BN items score 75, EC items 50 and RV
    items 25; the BN items 16 and 19 are not answered. *)
Definition uneven_s1 : wide string :=
  aphab_row "s1"
    [c 5; c 5; c 4; c 4; c 5; c 3; c 3; c 4; c 3; c 4; c 3; c 4;
     c 4; c 4; c 4; na; c 4; c 5; na; c 4; c 3; c 4; c 4; c 3].

Definition uneven : list (wide string) := [uneven_s1].

(** The code 9, outside the scale, on the EC items 4, 10 and 12; every
    other item answered 4. *)
Definition bad_codes : list (wide string) :=
  [aphab_row "s1"
     [c 4; c 4; c 4; c 9; c 4; c 4; c 4; c 4; c 4; c 9; c 4; c 9;
      c 4; c 4; c 4; c 4; c 4; c 4; c 4; c 4; c 4; c 4; c 4; c 4]].

(** Subject s1 leaves the EC items 4, 10 and 12 and the BN item 1
    unanswered; subject s2 answers everything. *)
Definition gaps : list (wide string) :=
  [aphab_row "s1"
     [na; c 2; c 4; na; c 2; c 4; c 4; c 4; c 6; na; c 6; na;
      c 4; c 4; c 4; c 4; c 4; c 2; c 4; c 4; c 6; c 4; c 4; c 4];
   aphab_row "s2"
     [c 1; c 2; c 3; c 4; c 5; c 6; c 7; c 1; c 2; c 3; c 4; c 5;
      c 6; c 7; c 1; c 2; c 3; c 4; c 5; c 6; c 7; c 1; c 2; c 3]].

(** IOI-HA: subject A rates the difficulty (question 8) 1 and answers 4
    elsewhere; subject B rates it 3 and answers 3 to question 1. *)
Definition subject_A : wide string := Wide "A" [c 4; c 4; c 4; c 4; c 4; c 4; c 4; c 1].
Definition subject_B : wide string := Wide "B" [c 3; c 4; c 4; c 4; c 4; c 4; c 4; c 3].

Definition two_tiers : list (wide string) := [subject_A; subject_B].
Definition two_tiers_swapped : list (wide string) := [subject_B; subject_A].

(** The example of the spec: difficulty 3, question 1 answered 4. *)
Definition spec_example : list (wide string) :=
  [Wide "S" [c 4; c 3; c 3; c 3; c 3; c 3; c 3; c 3]].

(** A subject who leaves question 8 unanswered. *)
Definition subject_N : wide string :=
  Wide "N" [c 4; c 2; c 3; c 4; c 5; na; c 3; na].

Definition no_difficulty : list (wide string) := [subject_N].

(** An export with a style column: s1 and s3 wear style 1, s2 style 4. *)
Definition by_style : list (wide AphabStyle.raw_id) :=
  [Wide ("s1", Some 1)
     [c 5; c 5; c 4; c 4; c 5; c 3; c 3; c 4; c 3; c 4; c 3; c 4;
      c 4; c 4; c 4; na; c 4; c 5; na; c 4; c 3; c 4; c 4; c 3];
   Wide ("s2", Some 4)
     [c 1; c 2; c 3; c 4; c 5; c 6; c 7; c 1; c 2; c 3; c 4; c 5;
      c 6; c 7; c 1; c 2; c 3; c 4; c 5; c 6; c 7; c 1; c 2; c 3];
   Wide ("s3", Some 1)
     [na; c 2; c 4; na; c 2; c 4; c 4; c 4; c 6; na; c 6; na;
      c 4; c 4; c 4; c 4; c 4; c 2; c 4; c 4; c 6; c 4; c 4; c 4]].

(** The same export after the style codes were replaced by names. *)
Definition by_style_named : list (wide AphabStyle.styled_id) :=
  match AphabStyle.name_styles by_style with
  | Ok t => t
  | Raise _ => []
  end.

(** The tables of the IOI-HA script for [two_tiers]. *)
Definition two_tiers_out : IoiHa.output :=
  match IoiHa.run IoiHa.ind_mild_dict two_tiers with
  | Ok out => out
  | Raise _ => IoiHa.Output [] [] []
  end.

(** What the APHAB script computes from the long tables of the samples. *)
Definition uneven_out : Aphab.output :=
  Aphab.score_table (Aphab.organize uneven).

Definition bad_codes_out : Aphab.output :=
  Aphab.score_table (Aphab.organize bad_codes).

Definition gaps_out : Aphab.output :=
  Aphab.score_table (Aphab.organize gaps).

End Samples.

(** * Properties *)

(** ** pandas operations *)

Section frame_facts.
Import Frame.

Lemma elem_of_unique {A} `{EqDecision A} (l : list A) (x : A) :
  x ∈ unique l ↔ x ∈ l.
Proof.
  induction l as [|y l IH]; simpl; [done|].
  rewrite !elem_of_cons, list_elem_of_filter, IH.
  destruct (decide (x = y)); naive_solver.
Qed.

Lemma NoDup_unique {A} `{EqDecision A} (l : list A) : NoDup (unique l).
Proof.
  induction l as [|y l IH]; simpl; [constructor|].
  constructor; [|by apply NoDup_filter].
  rewrite list_elem_of_filter. naive_solver.
Qed.

Lemma filter_none {A} (P : A → Prop) `{∀ x, Decision (P x)} (l : list A) :
  (∀ x, x ∈ l → ¬ P x) → filter P l = [].
Proof.
  induction l as [|x l IH]; intros Hl; [done|].
  rewrite filter_cons_False by (apply Hl; left).
  apply IH. intros y Hy. apply Hl. by right.
Qed.

Lemma filter_ext_in {A} (P Q : A → Prop) `{∀ x, Decision (P x)}
    `{∀ x, Decision (Q x)} (l : list A) :
  (∀ x, x ∈ l → (P x ↔ Q x)) → filter P l = filter Q l.
Proof.
  induction l as [|x l IH]; intros Hl; [done|].
  rewrite !filter_cons. rewrite IH by (intros y Hy; apply Hl; by right).
  destruct (decide (P x)) as [HP|HP], (decide (Q x)) as [HQ|HQ]; try done.
  - destruct HQ. by apply (Hl x); [left|].
  - destruct HP. by apply (Hl x); [left|].
Qed.

Lemma melt_length {I} vars (t : list (wide I)) :
  length (melt vars t) = (length vars * length t)%nat.
Proof.
  unfold melt. induction vars as [|q vars IH]; [done|].
  change (length (((fun r => Melted (w_id r) q (column q r)) <$> t)
                  ++ melt vars t) = (length (q :: vars) * length t)%nat).
  rewrite length_app, length_fmap. unfold melt. rewrite IH. done.
Qed.

Lemma groupby_lookup {A K} `{Countable K} (key : A → K) (data : list A) k :
  groupby key data !! k =
    match filter (fun r => key r = k) data with
    | [] => None
    | g => Some g
    end.
Proof.
  induction data as [|r l IH]; simpl; [done|].
  rewrite filter_cons. destruct (decide (key r = k)) as [->|Hne].
  - rewrite lookup_insert_eq, IH.
    by destruct (filter _ l).
  - by rewrite lookup_insert_ne, IH.
Qed.

Lemma groupby_mean_lookup {A K} `{Countable K} (key : A → K) col
    (data : list A) k :
  groupby_mean key col data !! k =
    match filter (fun r => key r = k) data with
    | [] => None
    | g => Some (nanmean (col <$> g))
    end.
Proof.
  unfold groupby_mean. rewrite lookup_fmap, groupby_lookup.
  by destruct (filter _ data).
Qed.

Lemma as_int_Qz k : as_int (Qz k) = Some k.
Proof. unfold as_int, Qz, Qc_of_Z. simpl. done. Qed.

End frame_facts.

(** ** aphab.py: cleaning and aggregation *)

Section aphab_facts.
Import Frame Aphab.

Lemma remove_missing_filter ms (data : list row) :
  remove_missing ms data =
    filter (fun r => (subject r, subscale r) ∉ ms) data.
Proof.
  unfold remove_missing. revert data.
  induction ms as [|[s sc] ms IH]; intros data; simpl.
  - symmetry. induction data as [|r l IHl]; [done|].
    rewrite filter_cons_True by apply not_elem_of_nil. by f_equal.
  - rewrite IH, list_filter_filter. apply list_filter_iff.
    intros r. rewrite not_elem_of_cons. split.
    + intros [? Hn]. split; [|done]. intros [=]. naive_solver.
    + intros [Hn ?]. split; [done|]. intros [E1 E2]. apply Hn.
      by rewrite E1, E2.
Qed.

Lemma group_nested (data : list row) s sc :
  filter (fun r => subscale r = sc) (filter (fun r => subject r = s) data)
    = group data s sc.
Proof.
  unfold group. rewrite list_filter_filter.
  apply list_filter_iff. naive_solver.
Qed.

Lemma elem_of_group (data : list row) s sc r :
  r ∈ group data s sc ↔ r ∈ data ∧ subject r = s ∧ subscale r = sc.
Proof. unfold group. rewrite list_elem_of_filter. naive_solver. Qed.

(** What the two loops of lines 123-134 collect. *)
Lemma elem_of_find_missing (data : list row) s sc :
  (s, sc) ∈ find_missing data ↔ (2 < missing_values (group data s sc))%nat.
Proof.
  unfold find_missing, missing_values. rewrite list_elem_of_bind. split.
  - intros (sub & Hin & _). apply list_elem_of_bind in Hin as (s' & Hin & _).
    rewrite group_nested in Hin. case_decide; [|by apply elem_of_nil in Hin].
    apply list_elem_of_singleton in Hin. by simplify_eq.
  - intros Hx.
    destruct (filter (fun r => isnull (value r)) (group data s sc))
      as [|r g] eqn:E; [simpl in Hx; lia|].
    assert (r ∈ group data s sc) as Hr.
    { assert (r ∈ r :: g) as Hin by left. rewrite <- E in Hin.
      by apply list_elem_of_filter in Hin as [_ ?]. }
    apply elem_of_group in Hr as (Hd & Hs & Hsc).
    exists s. split.
    + apply list_elem_of_bind. exists sc. rewrite group_nested, E. split.
      * rewrite decide_True by done. left.
      * apply elem_of_unique, list_elem_of_fmap. exists r.
        rewrite list_elem_of_filter. done.
    + apply elem_of_unique, list_elem_of_fmap. by exists r.
Qed.

(** A group is removed as a whole or kept as a whole. *)
Lemma group_remove_missing (data : list row) s sc :
  group (remove_missing (find_missing data) data) s sc =
    if decide (2 < missing_values (group data s sc))%nat then []
    else group data s sc.
Proof.
  rewrite remove_missing_filter. unfold group at 1.
  rewrite list_filter_filter. case_decide as Hx.
  - apply elem_of_find_missing in Hx.
    apply filter_none. intros r _ [[E1 E2] Hn].
    apply Hn. by rewrite E1, E2.
  - rewrite <- elem_of_find_missing in Hx. unfold group.
    apply list_filter_iff. intros r. split; [naive_solver|].
    intros [E1 E2]. by rewrite E1, E2.
Qed.

End aphab_facts.

(** ** aphab.py: the long table *)

Section aphab_table.
Import Frame Aphab.

(** Case analysis over a question number between 1 and [n]. *)
Lemma Z_range_cases (P : Z → Prop) (n : Z) :
  Forall P (seqZ 1 n) → ∀ q, 1 ≤ q ≤ n → P q.
Proof.
  intros HP q Hq. rewrite Forall_forall in HP. apply HP.
  apply elem_of_seqZ. lia.
Qed.

Lemma elem_of_melt {I} vars (t : list (wide I)) m :
  m ∈ melt vars t ↔
    ∃ w, w ∈ t ∧ m_variable m ∈ vars ∧ m_id m = w_id w
         ∧ m_value m = column (m_variable m) w.
Proof.
  unfold melt. rewrite list_elem_of_bind. split.
  - intros (q & Hm & Hq). apply list_elem_of_fmap in Hm as (w & -> & Hw).
    by exists w.
  - intros (w & Hw & Hq & Hs & Hv). exists (m_variable m). split; [|done].
    apply list_elem_of_fmap. exists w. split; [|done].
    destruct m; simpl in *. by subst.
Qed.

(** Every row of the long table is question 1..24 of a subject of the
    wide table, with the columns the script computes from it. *)
Lemma elem_of_organize (t : list (wide string)) r :
  r ∈ organize t ↔
    ∃ w q, w ∈ t ∧ 1 ≤ q ≤ 24 ∧
      r = assign_subscale (add_scores (Melted (w_id w) q (column q w))).
Proof.
  unfold organize. rewrite list_elem_of_fmap. split.
  - intros (r1 & -> & Hr1). apply list_elem_of_fmap in Hr1 as (m & -> & Hm).
    apply list_elem_of_filter in Hm as [Hq Hm].
    apply elem_of_melt in Hm as (w & Hw & Hv & Hs & Hc).
    apply elem_of_seqZ in Hq, Hv. exists w, (m_variable m).
    split_and!; [done|lia|lia|]. destruct m; simpl in *. by subst.
  - intros (w & q & Hw & Hq & ->). eexists. split; [done|].
    apply list_elem_of_fmap. eexists. split; [done|].
    apply list_elem_of_filter. split; [apply elem_of_seqZ; simpl; lia|].
    apply elem_of_melt. exists w. simpl.
    split_and!; try done. apply elem_of_seqZ. lia.
Qed.

Lemma organize_columns (t : list (wide string)) r :
  r ∈ organize t →
    1 ≤ q_num r ≤ 24 ∧ reversed r = is_reversed (q_num r)
    ∧ score r = score_of (reversed r) (value r).
Proof.
  intros (w & q & _ & Hq & ->)%elem_of_organize. done.
Qed.

End aphab_table.

(** ** aphab.py: scoring keys and subscales *)

Section aphab_keys.
Import Frame Aphab.

Lemma not_reversed_score_lookup k v :
  not_reversed_score !! k = Some v ↔
    (k, v) ∈ [(1, 99); (2, 87); (3, 75); (4, 50); (5, 25); (6, 12); (7, 1)].
Proof.
  change not_reversed_score with
    (list_to_map [(1, 99); (2, 87); (3, 75); (4, 50); (5, 25); (6, 12);
                  (7, 1)] : gmap Z Z).
  rewrite <- elem_of_list_to_map; [done|].
  apply (bool_decide_unpack _). by vm_compute.
Qed.

Lemma reversed_score_lookup k v :
  reversed_score !! k = Some v ↔
    (k, v) ∈ [(1, 1); (2, 12); (3, 25); (4, 50); (5, 75); (6, 87); (7, 99)].
Proof.
  change reversed_score with
    (list_to_map [(1, 1); (2, 12); (3, 25); (4, 50); (5, 75); (6, 87);
                  (7, 99)] : gmap Z Z).
  rewrite <- elem_of_list_to_map; [done|].
  apply (bool_decide_unpack _). by vm_compute.
Qed.

(** The keys of both dicts are the codes 1 to 7. *)
Lemma score_key_domain (d : gmap Z Z) k :
  d = not_reversed_score ∨ d = reversed_score →
  is_Some (d !! k) ↔ 1 ≤ k ≤ 7.
Proof.
  intros Hd. rewrite <- elem_of_dom.
  assert (dom d = list_to_set (seqZ 1 7)) as ->
    by (by destruct Hd as [-> | ->]).
  rewrite elem_of_list_to_set, elem_of_seqZ. lia.
Qed.

(** C5. The forward key maps the codes 1..7 to 99, 87, 75, 50, 25, 12, 1
    in this order; the reversed key at [x] is the forward key at [8 - x];
    each key is a bijection between the codes 1..7 and the seven scores;
    and listed by code, either key is the other one read backwards. *)
Theorem score_keys_mirror :
  listing not_reversed_score = Some <$> [99; 87; 75; 50; 25; 12; 1]
  ∧ (∀ x, 1 ≤ x ≤ 7 → reversed_score !! x = not_reversed_score !! (8 - x))
  ∧ bijection_between not_reversed_score (seqZ 1 7) [99; 87; 75; 50; 25; 12; 1]
  ∧ bijection_between reversed_score (seqZ 1 7) [99; 87; 75; 50; 25; 12; 1]
  ∧ listing reversed_score = reverse (listing not_reversed_score).
Proof.
  split_and!.
  - reflexivity.
  - apply (Z_range_cases _ 7). vm_compute seqZ. by repeat constructor.
  - split_and!; [reflexivity| |].
    + intros v. setoid_rewrite not_reversed_score_lookup.
      set_unfold. naive_solver.
    + intros k1 k2 v. rewrite !not_reversed_score_lookup.
      set_unfold. naive_solver.
  - split_and!; [reflexivity| |].
    + intros v. setoid_rewrite reversed_score_lookup.
      set_unfold. naive_solver.
    + intros k1 k2 v. rewrite !reversed_score_lookup.
      set_unfold. naive_solver.
  - reflexivity.
Qed.

End aphab_keys.

Section aphab_rows.
Import Frame Aphab.

Local Ltac in_list :=
  split_and!;
    [ apply (bool_decide_unpack _); by vm_compute
    | apply (bool_decide_unpack _); by vm_compute
    | by intros [] ?; simpl in *; subst
    | unfold subscale_lists, EC, BN, RV, AV; intros ? ? Hin Hq;
      set_unfold in Hin; destruct_or!; simplify_eq; try done;
      exfalso; set_unfold in Hq; destruct_or!; done ].

(** C8. Every question 1..24 is in exactly one of the lists EC, BN, RV
    and AV, and every row of the long table gets the name of the list its
    question is in. *)
Theorem subscales_partition :
  (∀ q, 1 ≤ q ≤ 24 →
     ∃ name l, (name, l) ∈ subscale_lists ∧ q ∈ l
       ∧ ∀ name' l', (name', l') ∈ subscale_lists → q ∈ l' → name' = name)
  ∧ (∀ t r, r ∈ organize t →
       ∃ name l, (name, l) ∈ subscale_lists ∧ q_num r ∈ l
         ∧ subscale r = inr name
         ∧ ∀ name' l', (name', l') ∈ subscale_lists → q_num r ∈ l' →
             name' = name).
Proof.
  assert (∀ q, 1 ≤ q ≤ 24 →
    ∃ name l, (name, l) ∈ subscale_lists ∧ q ∈ l
      ∧ (∀ r, q_num r = q → subscale (assign_subscale r) = inr name)
      ∧ ∀ name' l', (name', l') ∈ subscale_lists → q ∈ l' → name' = name)
    as Hall.
  { apply (Z_range_cases _ 24). vm_compute seqZ.
    repeat constructor.
    all: first [ exists "EC", EC; in_list | exists "BN", BN; in_list
               | exists "RV", RV; in_list | exists "AV", AV; in_list ]. }
  split.
  - intros q Hq. destruct (Hall q Hq) as (name & l & ? & ? & _ & ?).
    by exists name, l.
  - intros t r (w & q & _ & Hq & ->)%elem_of_organize.
    destruct (Hall q Hq) as (name & l & ? & ? & Hs & ?).
    exists name, l. split_and!; try done. by apply Hs.
Qed.

End aphab_rows.

(** ** aphab.py: scoring one response *)

Section aphab_scoring.
Import Frame Aphab Samples.

Lemma as_int_Some x k : as_int x = Some k → x = Qz k.
Proof.
  unfold as_int. case_decide as Hd; [|done]. intros [= <-].
  apply Qc_is_canon. unfold Qz, Qc_of_Z.
  destruct x as [[n d] Hc]. simpl in *. subst d. done.
Qed.

(** A response gets a score exactly when it is one of the codes 1..7. *)
Lemma score_of_valid rev x :
  is_Some (score_of rev (Some x)) ↔ valid_code x.
Proof.
  assert (∀ d, d = not_reversed_score ∨ d = reversed_score →
            is_Some (map_dict d (Some x)) ↔ valid_code x) as Hd.
  { intros d Hd. unfold valid_code.
    rewrite list_elem_of_fmap. setoid_rewrite elem_of_seqZ.
    unfold map_dict. simpl. split.
    - destruct (as_int x) as [k|] eqn:Hk; simpl; [|by intros [? ?]].
      rewrite fmap_is_Some, (score_key_domain d k Hd).
      apply as_int_Some in Hk. intros ?. exists k. split; [done|lia].
    - intros (k & -> & Hk). rewrite as_int_Qz. simpl.
      rewrite fmap_is_Some, (score_key_domain d k Hd). lia. }
  destruct rev; simpl; apply Hd; auto.
Qed.

(** C6. A row of the long table whose raw response is missing has a
    missing score, whether or not its question is a reversed one. *)
Theorem missing_value_missing_score (t : list (wide string)) (r : row) :
  r ∈ organize t → value r = None → score r = None.
Proof.
  intros (_ & _ & ->)%organize_columns ->. by destruct (reversed r).
Qed.

Lemma missing_value_missing_score_witness :
  score (Row "s1" 1 None true None (inr "BN")) = None
  ∧ score (Row "s1" 4 None false None (inr "EC")) = None.
Proof.
  split.
  - apply (missing_value_missing_score gaps); [|reflexivity].
    apply (bool_decide_unpack _). vm_compute. exact I.
  - apply (missing_value_missing_score gaps); [|reflexivity].
    apply (bool_decide_unpack _). vm_compute. exact I.
Defined.

Lemma run_shape (t : list (wide string)) :
  Forall (fun w => length (w_resp w) = 27%nat) t →
  run t = Ok (score_table (organize t)).
Proof. intros Ht. unfold run, set_columns. by rewrite decide_True. Qed.

(** C3, as the code behaves. A present response that is not one of the
    codes 1..7 is looked up with [Series.map], which gives NaN for a value
    that is not a key: the row stays in the long table, with a missing
    score. *)
Theorem invalid_code_scores_nan (t : list (wide string)) (r : row) (x : Qc) :
  r ∈ organize t → value r = Some x → ¬ valid_code x → score r = None.
Proof.
  intros (_ & _ & Hs)%organize_columns Hv Hx.
  rewrite Hs, Hv. apply eq_None_not_Some. by rewrite score_of_valid.
Qed.

End aphab_scoring.

Section aphab_scoring_samples.
Import Frame Aphab Samples.

Lemma invalid_code_scores_nan_witness :
  Row "s1" 4 (c 9) false None (inr "EC") ∈ organize bad_codes
  ∧ ¬ valid_code (Qz 9)
  ∧ score (Row "s1" 4 (c 9) false None (inr "EC")) = None.
Proof.
  assert (Row "s1" 4 (c 9) false None (inr "EC") ∈ organize bad_codes) as Hin.
  { apply (bool_decide_unpack _). vm_compute. exact I. }
  assert (¬ valid_code (Qz 9)) as Hx.
  { apply (bool_decide_unpack _). vm_compute. exact I. }
  split_and!; [exact Hin|exact Hx|].
  apply (invalid_code_scores_nan bad_codes _ (Qz 9) Hin); [reflexivity|exact Hx].
Defined.

(** C3 as stated fails: the code 9 on item 4 raises nothing; the script
    writes its tables, and the row is in the long table with a missing
    score. *)
Lemma out_of_range_code_not_raised :
  (∀ e, run bad_codes ≠ Raise e)
  ∧ ∃ r, r ∈ organize bad_codes ∧ q_num r = 4 ∧ value r = c 9
         ∧ score r = None.
Proof.
  split; [by intros e|].
  exists (Row "s1" 4 (c 9) false None (inr "EC")). split_and!; try done.
  apply (bool_decide_unpack _). vm_compute. exact I.
Qed.

End aphab_scoring_samples.

(** ** aphab.py: the missing-data filter and the two score tables *)

Section aphab_aggregation.
Import Frame Aphab.

(** The table after cleaning: the rows of the groups with at most two
    unanswered questions. *)
Lemma cleaned_filter (data : list row) :
  remove_missing (find_missing data) data =
    filter (fun r =>
      (missing_values (group data (subject r) (subscale r)) ≤ 2)%nat) data.
Proof.
  rewrite remove_missing_filter. apply list_filter_iff. intros r.
  rewrite elem_of_find_missing. lia.
Qed.

(** Taking the rows of one group out of the table leaves every other
    group as it was. *)
Lemma group_without (data : list row) s sc r :
  ¬ (subject r = s ∧ subscale r = sc) →
  group (filter (fun a => ¬ (subject a = s ∧ subscale a = sc)) data)
        (subject r) (subscale r)
    = group data (subject r) (subscale r).
Proof.
  intros Hr. unfold group. rewrite list_filter_filter.
  apply list_filter_iff. intros a. split; [naive_solver|].
  intros [E1 E2]. split; [done|]. by rewrite E1, E2.
Qed.

(** A group with more than two unanswered questions has no part in the
    cleaned table: the script cleans the table without that group to the
    same rows. *)
Lemma cleaned_without (data : list row) s sc :
  (2 < missing_values (group data s sc))%nat →
  let data' := filter (fun a => ¬ (subject a = s ∧ subscale a = sc)) data in
  remove_missing (find_missing data') data'
    = remove_missing (find_missing data) data.
Proof.
  intros Hx data'. rewrite !cleaned_filter. unfold data'.
  rewrite list_filter_filter. apply list_filter_iff. intros r. split.
  - intros [Hle Hr]. by rewrite group_without in Hle.
  - intros Hle. assert (¬ (subject r = s ∧ subscale r = sc)) as Hr.
    { intros [E1 E2]. rewrite E1, E2 in Hle. lia. }
    by rewrite group_without.
Qed.

(** C4, as the code behaves. The filter counts the rows of a (subject,
    subscale) group whose raw response is missing. With more than two, the
    pair is reported, the group has no row in the subscale table, and both
    tables are what they are without the rows of the group. With at most
    two, the pair is not reported and the subscale score of the group is
    the mean of its non-missing scores. *)
Theorem missing_filter_counts_raw_values (data : list row) s sc :
  let g := group data s sc in
  let out := score_table data in
  ((2 < missing_values g)%nat →
     (s, sc) ∈ missing_data out
     ∧ subscale_data out !! (s, sc) = None
     ∧ (let out' := score_table
          (filter (fun a => ¬ (subject a = s ∧ subscale a = sc)) data) in
        subscale_data out = subscale_data out'
        ∧ global_data out = global_data out'))
  ∧ ((missing_values g ≤ 2)%nat → g ≠ [] →
     ((s, sc) ∉ missing_data out)
     ∧ subscale_data out !! (s, sc) = Some (nanmean (score <$> g))).
Proof.
  intros g out. subst g out. unfold score_table. simpl. split.
  - intros Hx. split_and!.
    + by apply elem_of_find_missing.
    + unfold subscale_scores. rewrite groupby_mean_lookup.
      pose proof (group_remove_missing data s sc) as Hg.
      rewrite decide_True in Hg by done. unfold group in Hg.
      erewrite list_filter_iff; [by rewrite Hg|].
      intros r. simpl. split; [by intros [= -> ->]|by intros [-> ->]].
    + by rewrite cleaned_without.
    + by rewrite cleaned_without.
  - intros Hx Hg. split.
    + rewrite elem_of_find_missing. lia.
    + unfold subscale_scores. rewrite groupby_mean_lookup.
      pose proof (group_remove_missing data s sc) as Hg'.
      rewrite decide_False in Hg' by lia. unfold group in Hg'.
      erewrite list_filter_iff; [rewrite Hg'|].
      * fold (group data s sc). by destruct (group data s sc).
      * intros r. simpl. split; [by intros [= -> ->]|by intros [-> ->]].
Qed.

Lemma subscale_data_lookup (data : list row) s sc :
  subscale_data (score_table data) !! (s, sc) =
    if decide (2 < missing_values (group data s sc))%nat then None
    else match group data s sc with
         | [] => None
         | g => Some (nanmean (score <$> g))
         end.
Proof.
  unfold score_table, subscale_scores. simpl.
  rewrite groupby_mean_lookup.
  set (cleaned := remove_missing (find_missing data) data).
  assert (filter (fun r => (subject r, subscale r) = (s, sc)) cleaned
          = group cleaned s sc) as ->.
  { unfold group. apply list_filter_iff. intros r. simpl.
    split; [by intros [= -> ->]|by intros [-> ->]]. }
  unfold cleaned. rewrite group_remove_missing. by case_decide.
Qed.

Lemma global_data_lookup (data : list row) (s : string) :
  global_data (score_table data) !! s =
    match
      filter (fun r => subject r = s
                ∧ subscale r ∈ [inr "BN"; inr "EC"; inr "RV" : label]
                ∧ (missing_values (group data s (subscale r)) ≤ 2)%nat) data
    with
    | [] => None
    | items => Some (nanmean (score <$> items))
    end.
Proof.
  unfold score_table, global_scores. simpl.
  rewrite groupby_mean_lookup, cleaned_filter, !list_filter_filter.
  erewrite list_filter_iff; [done|].
  intros r. simpl. split.
  - intros [[E ?] ?]. by subst s.
  - intros (E & ? & ?). by subst s.
Qed.

(** C1, as the code behaves. The global score of a subject is the mean of
    the subject's non-missing item scores over all rows of the BN, EC and
    RV groups that the missing-data filter kept; every item weighs the
    same, whatever subscale it is in. *)
Theorem global_score_is_item_mean (data : list row) (s : string) :
  global_data (score_table data) !! s =
    match
      filter (fun r => subject r = s
                ∧ subscale r ∈ [inr "BN"; inr "EC"; inr "RV" : label]
                ∧ (missing_values (group data s (subscale r)) ≤ 2)%nat) data
    with
    | [] => None
    | items => Some (nanmean (score <$> items))
    end.
Proof.
  unfold score_table, global_scores. simpl.
  rewrite groupby_mean_lookup, cleaned_filter, !list_filter_filter.
  erewrite list_filter_iff; [done|].
  intros r. simpl. split.
  - intros [[E ?] ?]. by subst s.
  - intros (E & ? & ?). by subst s.
Qed.

End aphab_aggregation.

Section aphab_aggregation_samples.
Import Frame Aphab Samples.

Local Ltac by_evaluation := apply (bool_decide_unpack _); vm_compute; exact I.

Lemma missing_filter_counts_raw_values_witness :
  (("s1", inr "EC") ∈ missing_data gaps_out
   ∧ subscale_data gaps_out !! ("s1", inr "EC") = None)
  ∧ ((("s1", inr "BN") ∉ missing_data gaps_out)
     ∧ subscale_data gaps_out !! ("s1", inr "BN") = Some (c 50)).
Proof.
  split.
  - destruct (proj1 (missing_filter_counts_raw_values
                       (organize gaps) "s1" (inr "EC")))
      as (Hm & Hs & _); [vm_compute; lia|]. by split.
  - destruct (proj2 (missing_filter_counts_raw_values
                       (organize gaps) "s1" (inr "BN")))
      as (Hm & Hs); [vm_compute; lia|vm_compute; discriminate|].
    split; [exact Hm|]. etransitivity; [exact Hs|]. by_evaluation.
Defined.

(** C4 as stated fails: three EC items of the subject have no score (the
    code 9 is not on the scale), more than the tolerance of two, and yet
    the group is not reported and has a subscale score. *)
Lemma unscored_items_not_counted :
  missing_scores (group (organize bad_codes) "s1" (inr "EC")) = 3%nat
  ∧ missing_values (group (organize bad_codes) "s1" (inr "EC")) = 0%nat
  ∧ (("s1", inr "EC") ∉ missing_data bad_codes_out)
  ∧ subscale_data bad_codes_out !! ("s1", inr "EC") = Some (c 50).
Proof.
  split_and!; [reflexivity|reflexivity|by_evaluation|by_evaluation].
Qed.

(** C1 as stated fails: the subscale means of the subject are 75, 50 and
    25, whose mean is 50, and the global score is 46.875, the mean of the
    sixteen item scores. *)
Lemma global_score_not_mean_of_means :
  run uneven = Ok uneven_out
  ∧ subscale_data uneven_out !! ("s1", inr "BN") = Some (c 75)
  ∧ subscale_data uneven_out !! ("s1", inr "EC") = Some (c 50)
  ∧ subscale_data uneven_out !! ("s1", inr "RV") = Some (c 25)
  ∧ mean_of_subscale_means (subscale_data uneven_out) "s1" = c 50
  ∧ global_data uneven_out !! "s1" = Some (Some (Q2Qc 46.875))
  ∧ global_data uneven_out !! "s1"
      ≠ Some (mean_of_subscale_means (subscale_data uneven_out) "s1").
Proof.
  split_and!; try by_evaluation.
  apply run_shape. by_evaluation.
Qed.

End aphab_aggregation_samples.

(** ** ioi_ha.py: tiers *)

Section ioi_tiers.
Import Frame IoiHa.

(** Every subject gets one of the two tier strings. *)
Lemma difficulty_of_cases (w : wide string) :
  (bools w = true ∧ difficulty_of w = Some "mild-mod")
  ∨ (bools w = false ∧ difficulty_of w = Some "mod-severe").
Proof. unfold difficulty_of. destruct (bools w); auto. Qed.

Lemma bools_true (w : wide string) :
  bools w = true ↔ ∃ x, column 8 w = Some x ∧ (Qz 2 < x)%Qc.
Proof.
  unfold bools, cell_gt. destruct (column 8 w) as [x|].
  - rewrite bool_decide_eq_true. naive_solver.
  - naive_solver.
Qed.

Lemma elem_of_melt_long (t : list (wide string)) r :
  r ∈ melt_long (assign_difficulty <$> t) ↔
    ∃ w q, w ∈ t ∧ 1 ≤ q ≤ 8
      ∧ r = Long (w_id w) (difficulty_of w) q (column q w) "".
Proof.
  unfold melt_long. rewrite list_elem_of_fmap. split.
  - intros (m & -> & Hm). apply elem_of_melt in Hm as (w' & Hw' & Hq & Hi & Hv).
    apply list_elem_of_fmap in Hw' as (w & -> & Hw).
    apply elem_of_seqZ in Hq. exists w, (m_variable m).
    split_and!; [done|lia|lia|]. rewrite Hi, Hv. done.
  - intros (w & q & Hw & Hq & ->).
    exists (Melted (w_id w, difficulty_of w) q (column q w)). split; [done|].
    apply elem_of_melt. exists (assign_difficulty w). simpl.
    split_and!; try done.
    + by apply list_elem_of_fmap_2.
    + apply elem_of_seqZ. lia.
Qed.

(** The tier strings of the long table are the two the script writes. *)
Lemma melt_long_difficulty (t : list (wide string)) :
  Forall (fun r => difficulty r = Some "mild-mod"
                   ∨ difficulty r = Some "mod-severe")
         (melt_long (assign_difficulty <$> t)).
Proof.
  apply Forall_forall. intros r (w & q & _ & _ & ->)%elem_of_melt_long.
  simpl. destruct (difficulty_of_cases w) as [[_ ->]|[_ ->]]; auto.
Qed.

(** The loop changes the [WNL] column only. *)
Lemma wnl_loop_same d norms rows rows' :
  wnl_loop d norms rows = Ok rows' → Forall2 same_response rows rows'.
Proof.
  revert norms rows'. induction rows as [|r rest IH]; intros norms rows'; simpl.
  - intros [= <-]. constructor.
  - destruct (judge _ (score r)) as [tag|e]; simpl; [|done].
    destruct (wnl_loop d _ rest) as [rest'|e] eqn:E; simpl; [|done].
    intros [= <-]. constructor; [done|]. by eapply IH.
Qed.

End ioi_tiers.

(** ** ioi_ha.py: the WNL loop *)

Section ioi_loop.
Import Frame IoiHa.

Lemma Forall2_elem_of_l {A B} (P : A → B → Prop) l k x :
  Forall2 P l k → x ∈ l → ∃ y, y ∈ k ∧ P x y.
Proof.
  intros HF (i & Hi)%list_elem_of_lookup.
  destruct (Forall2_lookup_l _ _ _ _ _ HF Hi) as (y & Hy & HP).
  exists y. split; [|done]. apply list_elem_of_lookup. eauto.
Qed.

(** A row whose tier is not spelled [mild_mod] is judged without the
    individual mild-moderate dict. *)
Lemma select_norms_ind_mild d1 d2 norms r :
  difficulty r ≠ Some "mild_mod" →
  select_norms d1 norms r = select_norms d2 norms r.
Proof. intros Hr. unfold select_norms. by rewrite bool_decide_eq_false_2. Qed.

Lemma wnl_loop_ind_mild d1 d2 norms rows :
  Forall (fun r => difficulty r ≠ Some "mild_mod") rows →
  wnl_loop d1 norms rows = wnl_loop d2 norms rows.
Proof.
  intros HF. revert norms. induction HF as [|r rest Hr _ IH]; intros norms.
  - done.
  - simpl. rewrite (select_norms_ind_mild d1 d2) by done.
    destruct (judge _ (score r)); simpl; [|done]. by rewrite IH.
Qed.

(** C9. The script gives the same result, tags and tables or exception,
    whatever the individual mild-moderate dict holds. *)
Theorem ind_mild_dict_never_consulted (d1 d2 : norms_dict)
    (t : list (wide string)) :
  run d1 t = run d2 t.
Proof.
  unfold run. destruct (set_columns 8 t) as [t'|e]; simpl; [|done].
  rewrite (wnl_loop_ind_mild d1 d2); [done|].
  eapply Forall_impl; [apply melt_long_difficulty|].
  intros r [-> | ->]; done.
Qed.

(** C10. A subject with no answer to question 8 is in the mod-severe
    tier: all eight rows of the subject carry it in the long table, and
    are in the mod-severe table when the script finishes. *)
Theorem missing_difficulty_is_mod_severe (d : norms_dict)
    (t : list (wide string)) (w : wide string) :
  w ∈ t → column 8 w = None →
  difficulty_of w = Some "mod-severe"
  ∧ (∀ q, 1 ≤ q ≤ 8 →
       Long (w_id w) (Some "mod-severe") q (column q w) ""
         ∈ melt_long (assign_difficulty <$> t))
  ∧ (∀ out, run d t = Ok out → ∀ q, 1 ≤ q ≤ 8 →
       ∃ tag, Long (w_id w) (Some "mod-severe") q (column q w) tag
                ∈ mod_severe out).
Proof.
  intros Hw H8.
  assert (difficulty_of w = Some "mod-severe") as Hd.
  { unfold difficulty_of, bools. by rewrite H8. }
  assert (∀ q, 1 ≤ q ≤ 8 →
    Long (w_id w) (Some "mod-severe") q (column q w) ""
      ∈ melt_long (assign_difficulty <$> t)) as Hrows.
  { intros q Hq. apply elem_of_melt_long. exists w, q. by rewrite Hd. }
  split_and!; [done|done|].
  intros out Hrun q Hq. unfold run in Hrun.
  destruct (set_columns 8 t) as [t'|e] eqn:Hc; simpl in Hrun; [|done].
  unfold set_columns in Hc. case_decide; [|done]. injection Hc as <-.
  destruct (wnl_loop d Unbound _) as [rows|e] eqn:Hl; simpl in Hrun; [|done].
  injection Hrun as <-. simpl.
  apply wnl_loop_same in Hl.
  destruct (Forall2_elem_of_l _ _ _ _ Hl (Hrows q Hq))
    as ([s' d' q' sc' tag] & Hin & Hs & Hdf & Hqq & Hsc).
  simpl in *. subst. exists tag. by apply list_elem_of_filter.
Qed.

End ioi_loop.

Section ioi_samples.
Import Frame IoiHa Samples.

Local Ltac by_evaluation := apply (bool_decide_unpack _); vm_compute; exact I.

Lemma missing_difficulty_is_mod_severe_witness :
  difficulty_of subject_N = Some "mod-severe"
  ∧ (∀ q, 1 ≤ q ≤ 8 →
       Long "N" (Some "mod-severe") q (column q subject_N) ""
         ∈ melt_long (assign_difficulty <$> no_difficulty))
  ∧ (∀ out, run ind_mild_dict no_difficulty = Ok out → ∀ q, 1 ≤ q ≤ 8 →
       ∃ tag, Long "N" (Some "mod-severe") q (column q subject_N) tag
                ∈ mod_severe out).
Proof.
  apply (missing_difficulty_is_mod_severe ind_mild_dict no_difficulty
           subject_N).
  - by_evaluation.
  - reflexivity.
Defined.

(** C2 on two inputs. Subject B is in the mild-mod tier and answers 3 to
    question 1; the individual mild-moderate band of question 1 is (3, 5),
    by which 3 is within limits; the script tags the row [outside], by the
    band (4.5, 0.96) left over from the row of subject A. On the example
    of the spec, a single mild-mod subject, the script stops with
    [NameError]. *)
Theorem mild_mod_rows_not_judged_by_mild_bands :
  (∃ out, run ind_mild_dict two_tiers = Ok out
     ∧ Long "B" (Some "mild-mod") 1 (c 3) "outside" ∈ data_long out)
  ∧ expected_tag (Long "B" (Some "mild-mod") 1 (c 3) "") = "wnl"
  ∧ run ind_mild_dict spec_example = Raise NameError.
Proof.
  split_and!.
  - eexists. split; [vm_compute; reflexivity|]. by_evaluation.
  - reflexivity.
  - reflexivity.
Qed.

(** C7 on two inputs. Subject A is mod-severe and subject B mild-mod, and
    every row of either subject is judged by the pair of [ind_mod_dict]
    for its question (by ['error'] for question 8). With B before A the
    first row is judged with [norms] not assigned. *)
Theorem tier_does_not_select_band :
  difficulty_of subject_A = Some "mod-severe"
  ∧ difficulty_of subject_B = Some "mild-mod"
  ∧ norms_trace ind_mild_dict Unbound
      (melt_long (assign_difficulty <$> two_tiers))
    = (q ← seqZ 1 8; [lookup_norms ind_mod_dict q; lookup_norms ind_mod_dict q])
  ∧ head (norms_trace ind_mild_dict Unbound
            (melt_long (assign_difficulty <$> two_tiers_swapped)))
    = Some Unbound.
Proof.
  split_and!; [reflexivity|reflexivity| |reflexivity].
  by_evaluation.
Qed.

End ioi_samples.

(** ** ioi_ha.py: what the loop does to each row *)

Section ioi_trace.
Import Frame IoiHa.

(** The loop in closed form: it stops with [NameError] when some row is
    reached with [norms] unassigned, and else tags every row by the value
    [norms] has at its turn. *)
Lemma wnl_loop_trace d norms rows :
  wnl_loop d norms rows =
    if decide (Unbound ∈ norms_trace d norms rows) then Raise NameError
    else Ok (zip_with retag rows (norms_trace d norms rows)).
Proof.
  revert norms. induction rows as [|r rest IH]; intros norms.
  - done.
  - cbn [wnl_loop norms_trace zip_with]. rewrite IH.
    set (n := select_norms d norms r). clearbody n.
    destruct (decide (Unbound ∈ norms_trace d n rest)) as [Hin|Hin].
    + rewrite decide_True by (by right).
      destruct n; cbn [judge]; try reflexivity.
      destruct (_ && _); reflexivity.
    + destruct n; cbn [judge].
      * rewrite decide_True by left. reflexivity.
      * rewrite decide_False; [reflexivity|]. intros [?|?]%elem_of_cons; done.
      * rewrite decide_False; [|intros [?|?]%elem_of_cons; done].
        destruct (_ && _) eqn:E; unfold retag at 2, tag_by; cbn [judge];
          rewrite E; reflexivity.
Qed.

Lemma lookup_norms_bound d q : lookup_norms d q ≠ Unbound.
Proof. unfold lookup_norms. by destruct (d !! q). Qed.

(** On a table led by mod-severe rows every row is judged by the pair of
    [ind_mod_dict] for its question. *)
Lemma norms_trace_led d norms cur rows :
  led_by_mod_severe cur rows →
  (∀ q, cur = Some q → norms = lookup_norms ind_mod_dict q) →
  norms_trace d norms rows
    = (fun r => lookup_norms ind_mod_dict (question r)) <$> rows.
Proof.
  revert norms cur. induction rows as [|r rest IH]; intros norms cur; simpl.
  - done.
  - intros [Hr Hrest] Hn.
    assert (select_norms d norms r = lookup_norms ind_mod_dict (question r))
      as ->.
    { unfold select_norms. destruct Hr as [-> | [-> Hc]]; simpl.
      - done.
      - by apply Hn. }
    f_equal. apply (IH _ (Some (question r))); [done|]. by intros q [= <-].
Qed.

Lemma led_by_mod_severe_block q (b rest : list long) :
  Forall (fun r => question r = q
            ∧ (difficulty r = Some "mild-mod"
               ∨ difficulty r = Some "mod-severe")) b →
  (∀ cur, led_by_mod_severe cur rest) →
  led_by_mod_severe (Some q) (b ++ rest).
Proof.
  intros Hb Hrest. induction Hb as [|r b [Hq Hd] _ IH]; simpl.
  - apply Hrest.
  - split.
    + destruct Hd as [Hd|Hd]; [right|left]; by rewrite ?Hq.
    + by rewrite Hq.
Qed.

(** The long table of a wide table whose first subject is mod-severe. *)
Lemma melt_long_led (w : wide string) (t : list (wide string)) cur :
  bools w = false →
  led_by_mod_severe cur (melt_long (assign_difficulty <$> (w :: t))).
Proof.
  intros Hw. unfold melt_long, melt.
  generalize (seqZ 1 8). intros vars. revert cur.
  induction vars as [|q vars IH]; intros cur; simpl; [done|].
  rewrite fmap_app. simpl. split.
  - left. unfold difficulty_of. by rewrite Hw.
  - apply led_by_mod_severe_block; [|done].
    apply Forall_forall. intros r Hr.
    apply list_elem_of_fmap in Hr as (m & -> & Hm).
    apply list_elem_of_fmap in Hm as (w' & -> & Hw').
    apply list_elem_of_fmap in Hw' as (w0 & -> & _). simpl.
    split; [done|].
    destruct (difficulty_of_cases w0) as [[_ ->]|[_ ->]]; auto.
Qed.

End ioi_trace.

(** ** ioi_ha.py: results of a run *)

Section ioi_run.
Import Frame IoiHa Samples.

Local Ltac by_evaluation := apply (bool_decide_unpack _); vm_compute; exact I.

(** The tier of a subject is [mild-mod] exactly when question 8 is
    answered with more than 2, and [mod-severe] in every other case; the
    long table has, for each subject and each question 1..8, one row that
    carries the subject's tier. *)
Theorem tier_by_threshold (t : list (wide string)) :
  (∀ w, difficulty_of w = Some "mild-mod"
        ↔ ∃ x, column 8 w = Some x ∧ (Qz 2 < x)%Qc)
  ∧ (∀ w, difficulty_of w = Some "mod-severe"
          ↔ ¬ ∃ x, column 8 w = Some x ∧ (Qz 2 < x)%Qc)
  ∧ (∀ r, r ∈ melt_long (assign_difficulty <$> t)
          ↔ ∃ w q, w ∈ t ∧ 1 ≤ q ≤ 8
              ∧ r = Long (w_id w) (difficulty_of w) q (column q w) "").
Proof.
  split_and!.
  - intros w. rewrite <- bools_true.
    destruct (difficulty_of_cases w) as [[Hb ->]|[Hb ->]]; rewrite Hb; done.
  - intros w. rewrite <- bools_true.
    destruct (difficulty_of_cases w) as [[Hb ->]|[Hb ->]]; rewrite Hb.
    + split; [done|]. intros Hn. by destruct Hn.
    + split; [|done]. intros _. done.
  - apply elem_of_melt_long.
Qed.

Lemma run_long d (t : list (wide string)) out :
  run d t = Ok out →
  Forall (fun w => length (w_resp w) = 8%nat) t
  ∧ let rows := melt_long (assign_difficulty <$> t) in
    (Unbound ∉ norms_trace d Unbound rows)
    ∧ data_long out = zip_with retag rows (norms_trace d Unbound rows).
Proof.
  unfold run, set_columns. case_decide as Ht; simpl; [|done].
  rewrite wnl_loop_trace. case_decide as Hu; simpl; [done|].
  by intros [= <-].
Qed.

Lemma elem_of_retagged d norms rows r' :
  r' ∈ zip_with retag rows (norms_trace d norms rows) →
  ∃ r n0, r ∈ rows ∧ r' = retag r (select_norms d n0 r).
Proof.
  revert norms. induction rows as [|r rest IH]; intros norms; simpl.
  - by intros ?%elem_of_nil.
  - intros [->|Hin]%elem_of_cons.
    + exists r, norms. split; [left|done].
    + destruct (IH _ Hin) as (r0 & n0 & ? & ?). exists r0, n0.
      split; [by right|done].
Qed.

(** The rows of mod-severe subjects are tagged as the spec says: by the
    band of [ind_mod_dict] for the question, [NA] where it has none. *)
Theorem mod_severe_rows_judged_by_band d (t : list (wide string)) out r :
  run d t = Ok out → r ∈ data_long out →
  difficulty r = Some "mod-severe" →
  WNL r = expected_tag r.
Proof.
  intros (_ & _ & ->)%run_long (r0 & n0 & _ & ->)%elem_of_retagged Hd.
  simpl in Hd. unfold retag, tag_by, expected_tag, select_norms.
  cbn [difficulty question score WNL]. rewrite Hd.
  change (tier_dict (Some "mod-severe")) with ind_mod_dict.
  change (bool_decide (Some "mod-severe" = Some "mild_mod")) with false.
  change (bool_decide (Some "mod-severe" = Some "mod-severe")) with true.
  cbn iota. unfold lookup_norms.
  destruct (ind_mod_dict !! question r0) as [[n1 n2]|]; cbn [judge fst snd];
    [|done].
  by destruct (_ && _).
Qed.

Lemma mod_severe_rows_judged_by_band_witness :
  WNL (Long "A" (Some "mod-severe") 1 (c 4) "wnl")
    = expected_tag (Long "A" (Some "mod-severe") 1 (c 4) "wnl").
Proof.
  eapply (mod_severe_rows_judged_by_band ind_mild_dict two_tiers).
  - vm_compute. reflexivity.
  - by_evaluation.
  - reflexivity.
Defined.

End ioi_run.

Section ioi_outcome.
Import Frame IoiHa Samples.

Local Ltac by_evaluation := apply (bool_decide_unpack _); vm_compute; exact I.

Lemma melt_long_head (w : wide string) (t : list (wide string)) :
  ∃ rest, melt_long (assign_difficulty <$> (w :: t))
          = Long (w_id w) (difficulty_of w) 1 (column 1 w) "" :: rest.
Proof. by eexists. Qed.

Lemma run_wnl_loop d (t : list (wide string)) :
  Forall (fun w => length (w_resp w) = 8%nat) t →
  run d t =
    wnl_loop d Unbound (melt_long (assign_difficulty <$> t)) ≫= fun rows =>
      Ok (Output rows
            (filter (fun r => difficulty r = Some "mild-mod") rows)
            (filter (fun r => difficulty r = Some "mod-severe") rows)).
Proof. intros Ht. unfold run, set_columns. by rewrite decide_True. Qed.

Lemma outcome_by_first_subject d (w : wide string)
    (t : list (wide string)) :
  Forall (fun w => length (w_resp w) = 8%nat) (w :: t) →
  if bools w then run d (w :: t) = Raise NameError
  else ∃ out, run d (w :: t) = Ok out.
Proof.
  intros Ht. rewrite run_wnl_loop by done.
  rewrite wnl_loop_trace. destruct (bools w) eqn:Hw.
  - destruct (melt_long_head w t) as [rest ->]. simpl.
    assert (select_norms d Unbound
              (Long (w_id w) (difficulty_of w) 1 (column 1 w) "") = Unbound)
      as ->.
    { unfold select_norms, difficulty_of. simpl. by rewrite Hw. }
    rewrite decide_True by left. done.
  - rewrite (norms_trace_led d Unbound None); [|by apply melt_long_led|done].
    rewrite decide_False; [by eexists|].
    intros (r & Hr & _)%list_elem_of_fmap.
    by apply (lookup_norms_bound ind_mod_dict (question r)).
Qed.

(** On a table of the right shape the first subject decides how the
    script ends: with [NameError] when that subject is mild-mod, with its
    tables when it is mod-severe. *)
Theorem first_subject_decides_outcome d (w : wide string)
    (t : list (wide string)) :
  Forall (fun w => length (w_resp w) = 8%nat) (w :: t) →
  if bools w then run d (w :: t) = Raise NameError
  else ∃ out, run d (w :: t) = Ok out.
Proof.
  intros Ht. rewrite run_wnl_loop by done.
  rewrite wnl_loop_trace. destruct (bools w) eqn:Hw.
  - destruct (melt_long_head w t) as [rest ->]. simpl.
    assert (select_norms d Unbound
              (Long (w_id w) (difficulty_of w) 1 (column 1 w) "") = Unbound)
      as ->.
    { unfold select_norms, difficulty_of. simpl. by rewrite Hw. }
    rewrite decide_True by left. done.
  - rewrite (norms_trace_led d Unbound None); [|by apply melt_long_led|done].
    rewrite decide_False; [by eexists|].
    intros (r & Hr & _)%list_elem_of_fmap.
    by apply (lookup_norms_bound ind_mod_dict (question r)).
Qed.

Lemma first_subject_decides_outcome_witness :
  run ind_mild_dict two_tiers_swapped = Raise NameError
  ∧ ∃ out, run ind_mild_dict two_tiers = Ok out.
Proof.
  split.
  - apply (first_subject_decides_outcome ind_mild_dict subject_B [subject_A]).
    by_evaluation.
  - apply (first_subject_decides_outcome ind_mild_dict subject_A [subject_B]).
    by_evaluation.
Defined.

Lemma rows_tagged_by_mod_norms d (t : list (wide string)) out r :
  run d t = Ok out → r ∈ data_long out →
  WNL r = tag_by (lookup_norms ind_mod_dict (question r)) r.
Proof.
  intros Hrun Hr. pose proof Hrun as (Ht & Hu & Hout)%run_long.
  cbv zeta in Hu, Hout. rewrite Hout in Hr. clear Hout.
  destruct t as [|w t]; [by apply elem_of_nil in Hr|].
  pose proof (outcome_by_first_subject d w t Ht) as Hfirst.
  destruct (bools w) eqn:Hw; [congruence|].
  rewrite (norms_trace_led d Unbound None) in Hr;
    [|by apply melt_long_led|done].
  revert Hr. generalize (melt_long (assign_difficulty <$> w :: t)).
  intros rows. induction rows as [|r0 rows IH]; simpl.
  - by intros ?%elem_of_nil.
  - intros [->|Hin]%elem_of_cons; [done|by apply IH].
Qed.

(** When the script finishes, every row, of either tier, is tagged by the
    pair of [ind_mod_dict] for its question. *)
Theorem all_rows_judged_by_mod_severe_norms d (t : list (wide string)) out r :
  run d t = Ok out → r ∈ data_long out →
  WNL r = tag_by (lookup_norms ind_mod_dict (question r)) r.
Proof.
  intros Hrun Hr. pose proof Hrun as (Ht & Hu & Hout)%run_long.
  cbv zeta in Hu, Hout. rewrite Hout in Hr. clear Hout.
  destruct t as [|w t]; [by apply elem_of_nil in Hr|].
  pose proof (outcome_by_first_subject d w t Ht) as Hfirst.
  destruct (bools w) eqn:Hw; [congruence|].
  rewrite (norms_trace_led d Unbound None) in Hr;
    [|by apply melt_long_led|done].
  revert Hr. generalize (melt_long (assign_difficulty <$> w :: t)).
  intros rows. induction rows as [|r0 rows IH]; simpl.
  - by intros ?%elem_of_nil.
  - intros [->|Hin]%elem_of_cons; [done|by apply IH].
Qed.

Lemma all_rows_judged_by_mod_severe_norms_witness :
  WNL (Long "B" (Some "mild-mod") 1 (c 3) "outside")
    = tag_by (lookup_norms ind_mod_dict 1)
             (Long "B" (Some "mild-mod") 1 (c 3) "outside").
Proof.
  eapply (all_rows_judged_by_mod_severe_norms ind_mild_dict two_tiers).
  - vm_compute. reflexivity.
  - by_evaluation.
Defined.

End ioi_outcome.

Section ioi_tags.
Import Frame IoiHa Samples.

Local Ltac by_evaluation := apply (bool_decide_unpack _); vm_compute; exact I.

Lemma run_rows d (t : list (wide string)) out r :
  run d t = Ok out → r ∈ data_long out →
  ∃ w q tag, w ∈ t ∧ 1 ≤ q ≤ 8
    ∧ r = Long (w_id w) (difficulty_of w) q (column q w) tag.
Proof.
  intros (_ & _ & ->)%run_long (r0 & n0 & Hr0 & ->)%elem_of_retagged.
  apply elem_of_melt_long in Hr0 as (w & q & Hw & Hq & ->).
  exists w, q. eexists. split; [done|]. split; [done|]. reflexivity.
Qed.

(** When the script finishes, a row of question 8 has the tag [NA], and
    a row of a question 1..7 with no answer has the tag [outside]. *)
Theorem unanswered_items_tagged_outside d (t : list (wide string)) out r :
  run d t = Ok out → r ∈ data_long out →
  1 ≤ question r ≤ 8
  ∧ (question r = 8 → WNL r = "NA")
  ∧ (question r ≠ 8 → score r = None → WNL r = "outside").
Proof.
  intros Hrun Hr.
  pose proof (rows_tagged_by_mod_norms d t out r Hrun Hr) as Htag.
  destruct (run_rows d t out r Hrun Hr) as (w & q & tag & _ & Hq & ->).
  simpl in *. split; [done|]. unfold tag_by in Htag. cbn [score] in Htag.
  split.
  - intros ->. by rewrite Htag.
  - intros Hq8 Hc. rewrite Hc in Htag. rewrite Htag.
    assert (1 ≤ q ≤ 7) as Hq7 by lia. clear -Hq7.
    revert q Hq7. apply (Z_range_cases _ 7). vm_compute seqZ.
    by repeat constructor.
Qed.

Lemma unanswered_items_tagged_outside_witness :
  1 ≤ 6 ≤ 8 ∧ (6 = 8 → "outside" = "NA")
  ∧ (6 ≠ 8 → (None : cell) = None → "outside" = "outside").
Proof.
  eapply (unanswered_items_tagged_outside ind_mild_dict no_difficulty _
            (Long "N" (Some "mod-severe") 6 None "outside")).
  - vm_compute. reflexivity.
  - by_evaluation.
Defined.

Lemma run_tables d (t : list (wide string)) out :
  run d t = Ok out →
  mild_mod out = filter (fun r => difficulty r = Some "mild-mod") (data_long out)
  ∧ mod_severe out
    = filter (fun r => difficulty r = Some "mod-severe") (data_long out).
Proof.
  unfold run. destruct (set_columns 8 t) as [t'|]; simpl; [|done].
  destruct (wnl_loop d Unbound _) as [rows|]; simpl; [|done].
  by intros [= <-].
Qed.

Lemma norms_trace_length d norms rows :
  length (norms_trace d norms rows) = length rows.
Proof.
  revert norms. induction rows as [|r rows IH]; intros norms; simpl; [done|].
  by rewrite IH.
Qed.

(** The two tier tables split the long table: every tagged row is in
    exactly one of them; the long table has eight rows per subject. *)
Theorem tier_tables_partition d (t : list (wide string)) out :
  run d t = Ok out →
  mild_mod out ++ mod_severe out ≡ₚ data_long out
  ∧ length (data_long out) = (8 * length t)%nat.
Proof.
  intros Hrun. destruct (run_tables d t out Hrun) as [-> ->]. split.
  - rewrite (filter_ext_in (fun r => difficulty r = Some "mod-severe")
                            (fun r => ¬ difficulty r = Some "mild-mod")).
    + apply filter_app_complement.
    + intros r Hr.
      destruct (run_rows d t out r Hrun Hr) as (w & q & tag & _ & _ & ->).
      simpl. destruct (difficulty_of_cases w) as [[_ ->]|[_ ->]]; naive_solver.
  - apply run_long in Hrun as (_ & _ & ->).
    rewrite length_zip_with, norms_trace_length, Nat.min_id.
    unfold melt_long. rewrite length_fmap, melt_length, length_fmap.
    by rewrite length_seqZ.
Qed.

Lemma tier_tables_partition_witness :
  mild_mod two_tiers_out ++ mod_severe two_tiers_out
    ≡ₚ data_long two_tiers_out
  ∧ length (data_long two_tiers_out) = (8 * 2)%nat.
Proof.
  apply (tier_tables_partition ind_mild_dict two_tiers).
  vm_compute. reflexivity.
Defined.

End ioi_tags.

(** ** aphab.py: further properties of scoring and cleaning *)

Section aphab_more.
Import Frame Aphab Samples.

Local Ltac by_evaluation := apply (bool_decide_unpack _); vm_compute; exact I.

Lemma map_dict_Some d x y :
  map_dict d (Some x) = Some y →
  ∃ k v, x = Qz k ∧ d !! k = Some v ∧ y = Qz v.
Proof.
  unfold map_dict. simpl.
  destruct (as_int x) as [k|] eqn:Hk; simpl; [|done].
  destruct (d !! k) as [v|] eqn:Hv; simpl; [|done].
  intros [= <-]. exists k, v. by apply as_int_Some in Hk.
Qed.

Lemma score_of_values rev x y :
  score_of rev (Some x) = Some y → y ∈ Qz <$> scores.
Proof.
  unfold score_of. destruct rev.
  - intros (k & v & _ & Hv & ->)%map_dict_Some.
    apply list_elem_of_fmap_2. apply reversed_score_lookup in Hv.
    unfold scores. set_unfold. naive_solver.
  - intros (k & v & _ & Hv & ->)%map_dict_Some.
    apply list_elem_of_fmap_2. apply not_reversed_score_lookup in Hv.
    unfold scores. set_unfold. naive_solver.
Qed.

(** A row of the long table has a score exactly when its response is one
    of the codes 1..7, and the score is then one of the seven values of
    the scale. *)
Theorem response_scored_iff_valid_code (t : list (wide string)) (r : row) :
  r ∈ organize t →
  (is_Some (score r) ↔ ∃ x, value r = Some x ∧ valid_code x)
  ∧ (∀ y, score r = Some y → y ∈ Qz <$> scores).
Proof.
  intros (_ & _ & Hs)%organize_columns. rewrite Hs. split.
  - destruct (value r) as [x|].
    + rewrite score_of_valid. naive_solver.
    + split; [|naive_solver]. destruct (reversed r); by intros [? ?].
  - intros y Hy. destruct (value r) as [x|].
    + by eapply score_of_values.
    + by destruct (reversed r).
Qed.

Lemma response_scored_iff_valid_code_witness :
  (is_Some (Some (Qz 50)) ↔ ∃ x, c 4 = Some x ∧ valid_code x)
  ∧ (∀ y, Some (Qz 50) = Some y → y ∈ Qz <$> scores).
Proof.
  apply (response_scored_iff_valid_code bad_codes
           (Row "s1" 1 (c 4) true (Some (Qz 50)) (inr "BN"))).
  by_evaluation.
Defined.

Lemma reversed_score_mirror k :
  1 ≤ k ≤ 7 → reversed_score !! k = not_reversed_score !! (8 - k).
Proof.
  revert k. apply (Z_range_cases _ 7). vm_compute seqZ.
  by repeat constructor.
Qed.

(** A reversed item answered [k] scores what a plain item answered
    [8 - k] scores. *)
Theorem reversed_item_mirrors_plain_item (k : Z) :
  1 ≤ k ≤ 7 →
  score_of true (Some (Qz k)) = score_of false (Some (Qz (8 - k)))
  ∧ is_Some (score_of true (Some (Qz k))).
Proof.
  intros Hk. unfold score_of, map_dict. cbn [mbind option_bind].
  rewrite !as_int_Qz. cbn [mbind option_bind].
  rewrite reversed_score_mirror by done. split; [done|].
  rewrite fmap_is_Some. apply (score_key_domain not_reversed_score); [auto|lia].
Qed.

Lemma reversed_item_mirrors_plain_item_witness :
  score_of true (Some (Qz 2)) = score_of false (Some (Qz (8 - 2)))
  ∧ is_Some (score_of true (Some (Qz 2))).
Proof. apply (reversed_item_mirrors_plain_item 2). lia. Defined.

(** The exclusion report names each dropped pair once, and only pairs of
    a subject and a subscale that occur together in the table. *)
Theorem exclusion_report_has_no_repeats (data : list row) :
  NoDup (find_missing data)
  ∧ ∀ s sc, (s, sc) ∈ find_missing data →
      ∃ r, r ∈ data ∧ subject r = s ∧ subscale r = sc.
Proof.
  split.
  - unfold find_missing. apply NoDup_bind; [| |apply NoDup_unique].
    + intros s1 s2 [s sc] _ _ H1 H2.
      apply list_elem_of_bind in H1 as (sc1 & H1 & _).
      apply list_elem_of_bind in H2 as (sc2 & H2 & _).
      repeat case_decide; set_unfold; naive_solver.
    + intros s _. apply NoDup_bind; [| |apply NoDup_unique].
      * intros sc1 sc2 [s' sc] _ _ H1 H2.
        repeat case_decide; set_unfold; naive_solver.
      * intros sc _. case_decide; [apply NoDup_singleton|apply NoDup_nil_2].
  - intros s sc Hin. apply elem_of_find_missing in Hin.
    destruct (group data s sc) as [|r g] eqn:E;
      [unfold missing_values in Hin; simpl in Hin; lia|].
    exists r. apply elem_of_group. rewrite E. left.
Qed.

End aphab_more.

Section aphab_tables.
Import Frame Aphab Samples.

Local Ltac by_evaluation := apply (bool_decide_unpack _); vm_compute; exact I.

(** Filtering a melted table by variable is melting fewer variables. *)
Lemma filter_melt {I} (P : Z → Prop) `{∀ q, Decision (P q)} vars
    (t : list (wide I)) :
  filter (fun m => P (m_variable m)) (melt vars t) = melt (filter P vars) t.
Proof.
  unfold melt. induction vars as [|q vars IH]; [done|].
  change (filter (fun m => P (m_variable m))
            (((fun r => Melted (w_id r) q (column q r)) <$> t)
             ++ melt vars t)
          = melt (filter P (q :: vars)) t).
  rewrite filter_app, filter_cons. unfold melt at 1. rewrite IH.
  destruct (decide (P q)) as [HP|HP].
  - change (melt (q :: filter P vars) t)
      with (((fun r => Melted (w_id r) q (column q r)) <$> t)
            ++ melt (filter P vars) t).
    f_equal. clear IH. induction t as [|w t IHt]; [done|].
    rewrite fmap_cons, filter_cons_True by done. by rewrite IHt.
  - rewrite filter_none; [done|].
    intros m (w & -> & _)%list_elem_of_fmap. done.
Qed.

(** The long table has one row for each subject of the export and each
    question 1..24, with the answer of that subject to that question; the
    three further columns of the export are not in it. *)
Theorem long_table_rows (t : list (wide string)) :
  length (organize t) = (24 * length t)%nat
  ∧ ∀ r, r ∈ organize t →
      1 ≤ q_num r ≤ 24
      ∧ ∃ w, w ∈ t ∧ subject r = w_id w ∧ value r = column (q_num r) w.
Proof.
  split.
  - unfold organize. cbv zeta. rewrite !length_fmap.
    pose proof (filter_melt (fun q => q ∈ seqZ 0 25) (seqZ 1 27) t) as Hf.
    cbv beta in Hf. rewrite Hf, melt_length. done.
  - intros r (w & q & Hw & Hq & ->)%elem_of_organize. simpl.
    split; [done|]. by exists w.
Qed.

Lemma group_own_rows (data : list row) s sc :
  group (filter (fun r => subject r = s) data) s sc = group data s sc.
Proof.
  unfold group. rewrite list_filter_filter. apply list_filter_iff.
  naive_solver.
Qed.

(** The scores of a subject depend on the rows of that subject only. *)
Theorem scores_depend_on_own_rows (data : list row) (s : string) (sc : label) :
  let own := filter (fun r => subject r = s) data in
  subscale_data (score_table data) !! (s, sc)
    = subscale_data (score_table own) !! (s, sc)
  ∧ global_data (score_table data) !! s = global_data (score_table own) !! s.
Proof.
  intros own. subst own. split.
  - by rewrite !subscale_data_lookup, group_own_rows.
  - rewrite !global_data_lookup, list_filter_filter.
    erewrite (list_filter_iff _ _ data); [done|].
    intros r. simpl. rewrite group_own_rows. naive_solver.
Qed.

Lemma group_without_subscale (data : list row) s sc sc' :
  sc ≠ sc' →
  group (filter (fun r => subscale r ≠ sc') data) s sc = group data s sc.
Proof.
  intros Hne. unfold group. rewrite list_filter_filter.
  apply list_filter_iff. intros r. split; [naive_solver|].
  intros [? E]. split; [done|]. by rewrite E.
Qed.

(** The AV items have no part in the global scores: without the AV rows
    the script writes the same global table. *)
Theorem global_scores_ignore_AV (data : list row) :
  global_data (score_table data)
    = global_data
        (score_table (filter (fun r => subscale r ≠ inr "AV") data)).
Proof.
  apply map_eq. intros s.
  rewrite !global_data_lookup, list_filter_filter.
  erewrite (list_filter_iff _ _ data); [done|].
  intros r. simpl. split.
  - intros (? & Hin & Hle).
    assert (subscale r ≠ inr "AV") as Hav
      by (intros E; rewrite E in Hin; set_unfold; naive_solver).
    rewrite group_without_subscale; done.
  - intros [(? & Hin & Hle) ?]. rewrite group_without_subscale in Hle; done.
Qed.

End aphab_tables.

Section aphab_valid_data.
Import Frame Aphab Samples.

Local Ltac by_evaluation := apply (bool_decide_unpack _); vm_compute; exact I.

(** On a table whose answers are all codes of the scale, the rows of a
    group without a score are the rows without an answer: the filter then
    counts the missing scores. *)
Theorem missing_scores_are_missing_answers (t : list (wide string)) s sc :
  Forall (fun r => valid_answer (value r)) (organize t) →
  missing_scores (group (organize t) s sc)
    = missing_values (group (organize t) s sc).
Proof.
  intros Hvalid. unfold missing_scores, missing_values. f_equal.
  apply filter_ext_in. intros r (Hr & _)%elem_of_group.
  pose proof (organize_columns t r Hr) as (_ & _ & Hs).
  destruct (value r) as [x|] eqn:Hv; simpl.
  - rewrite Forall_forall in Hvalid. pose proof (Hvalid r Hr) as Hx.
    rewrite Hv in Hx. simpl in Hx.
    apply (score_of_valid (reversed r)) in Hx as [y Hy].
    rewrite Hs, Hy. done.
  - rewrite Hs. by destruct (reversed r).
Qed.

Lemma missing_scores_are_missing_answers_witness :
  missing_scores (group (organize gaps) "s1" (inr "EC"))
    = missing_values (group (organize gaps) "s1" (inr "EC")).
Proof.
  apply (missing_scores_are_missing_answers gaps). by_evaluation.
Defined.

(** A subject has a global score exactly when at least one of the groups
    BN, EC and RV of the subject is kept by the missing-data filter. *)
Theorem global_score_needs_a_kept_subscale (data : list row) (s : string) :
  is_Some (global_data (score_table data) !! s)
  ↔ ∃ sc, sc ∈ [inr "BN"; inr "EC"; inr "RV" : label]
          ∧ group data s sc ≠ []
          ∧ (missing_values (group data s sc) ≤ 2)%nat.
Proof.
  rewrite global_data_lookup.
  destruct (filter _ data) as [|r items] eqn:E.
  - split; [by intros [? ?]|]. intros (sc & Hsc & Hg & Hle).
    destruct (group data s sc) as [|r g] eqn:Eg; [done|].
    assert (r ∈ group data s sc) as (Hr & Hs & Hrsc)%elem_of_group
      by (rewrite Eg; left).
    exfalso. eapply (filter_nil_not_elem_of _ _ r E); [|done].
    rewrite Hrsc. rewrite Eg. done.
  - split; [|by eauto]. intros _.
    assert (r ∈ r :: items) as Hin by left. rewrite <- E in Hin.
    apply list_elem_of_filter in Hin as [(Hs & Hsc & Hle) Hr].
    exists (subscale r). split_and!; [done| |done].
    intros Hg. assert (r ∈ group data s (subscale r)) as Hin
      by (by apply elem_of_group).
    rewrite Hg in Hin. by apply elem_of_nil in Hin.
Qed.

End aphab_valid_data.

(** ** Means *)

Section means.
Import Frame.
Open Scope Qc_scope.

Lemma Qz_S (n : nat) : Qz (Z.of_nat (S n)) = 1 + Qz (Z.of_nat n).
Proof.
  unfold Qz. rewrite Nat2Z.inj_succ, <- Z.add_1_l.
  by rewrite Z2Qc_inj_add, Z2Qc_inj_1.
Qed.

Lemma Qz_pos (n : nat) : (0 < n)%nat → 0 < Qz (Z.of_nat n).
Proof.
  intros Hn. unfold Qz. rewrite <- Z2Qc_inj_0.
  apply (proj1 (Z2Qc_inj_lt _ _)). lia.
Qed.

Lemma Qz_0 : Qz 0 = 0.
Proof. apply Z2Qc_inj_0. Qed.

Lemma Qsum_cons x xs : Qsum (x :: xs) = x + Qsum xs.
Proof. done. Qed.

Lemma Qsum_bounds (a b : Qc) xs :
  Forall (fun x => a ≤ x ≤ b) xs →
  Qz (Z.of_nat (length xs)) * a ≤ Qsum xs
  ∧ Qsum xs ≤ Qz (Z.of_nat (length xs)) * b.
Proof.
  induction 1 as [|x xs [Ha Hb] _ [IHa IHb]].
  - unfold Qsum. simpl. change (Z.of_nat 0) with 0%Z.
    rewrite Qz_0, !Qcmult_0_l. done.
  - cbn [length]. rewrite Qz_S, !Qcmult_plus_distr_l, !Qcmult_1_l.
    change (Qsum (x :: xs)) with (x + Qsum xs).
    split; by apply Qcplus_le_compat.
Qed.

(** A mean lies between any two bounds of the values it is taken of. *)
Lemma nanmean_bounds (a b : Qc) l m :
  Forall (fun v => ∀ x, v = Some x → a ≤ x ≤ b) l →
  nanmean l = Some m → a ≤ m ≤ b.
Proof.
  intros Hl. unfold nanmean.
  assert (Forall (fun x => a ≤ x ≤ b) (present l)) as Hp.
  { apply Forall_forall. intros x (v & Hv & Hx)%list_elem_of_omap.
    rewrite Forall_forall in Hl. apply (Hl v Hv). by destruct v. }
  destruct (present l) as [|x xs] eqn:E; [done|]. intros [= <-].
  set (n := Qz (Z.of_nat (length (x :: xs)))).
  assert (0 < n) as Hn by (apply Qz_pos; simpl; lia).
  destruct (Qsum_bounds a b _ Hp) as [Ha Hb]. fold n in Ha, Hb.
  assert (Qsum (x :: xs) / n * n = Qsum (x :: xs)) as Hm.
  { unfold Qcdiv. rewrite <- Qcmult_assoc, Qcmult_inv_l, Qcmult_1_r; [done|].
    intros H0. rewrite H0 in Hn. by apply Qclt_not_eq in Hn. }
  change (a ≤ Qsum (x :: xs) / n ∧ Qsum (x :: xs) / n ≤ b). split.
  - apply (Qcmult_le_mono_pos_r _ _ n Hn). rewrite Hm.
    by rewrite (Qcmult_comm a n).
  - apply (Qcmult_le_mono_pos_r _ _ n Hn). rewrite Hm.
    by rewrite (Qcmult_comm b n).
Qed.

End means.

(** ** aphab.py: the range of the scores *)

Section aphab_means.
Import Frame Aphab.

Lemma organize_score_bounds (t : list (wide string)) r x :
  r ∈ organize t → score r = Some x → (Qz 1 ≤ x ≤ Qz 99)%Qc.
Proof.
  intros (_ & _ & Hs)%organize_columns Hx. rewrite Hs in Hx.
  assert (x ∈ Qz <$> scores) as (v & -> & Hv)%list_elem_of_fmap.
  { destruct (value r) as [y|]; [by eapply score_of_values|].
    by destruct (reversed r). }
  unfold Qz. rewrite <- !Z2Qc_inj_le.
  unfold scores in Hv. set_unfold. destruct_or!; subst; lia.
Qed.

(** Every subscale score and every global score the script writes for an
    export lies between 1 and 99. *)
Theorem scores_between_1_and_99 (t : list (wide string)) :
  (∀ s sc m, subscale_data (score_table (organize t)) !! (s, sc)
               = Some (Some m) → (Qz 1 ≤ m ≤ Qz 99)%Qc)
  ∧ (∀ s m, global_data (score_table (organize t)) !! s = Some (Some m) →
            (Qz 1 ≤ m ≤ Qz 99)%Qc).
Proof.
  split.
  - intros s sc m. rewrite subscale_data_lookup. case_decide; [done|].
    destruct (group (organize t) s sc) as [|r g] eqn:E; [done|].
    rewrite <- E. intros [= Hm]. eapply nanmean_bounds; [|exact Hm].
    apply Forall_forall. intros v (r' & -> & Hr')%list_elem_of_fmap x Hx.
    apply elem_of_group in Hr' as (Hr' & _).
    by eapply organize_score_bounds.
  - intros s m. rewrite global_data_lookup.
    destruct (filter _ (organize t)) as [|r g] eqn:E; [done|].
    rewrite <- E. intros [= Hm]. eapply nanmean_bounds; [|exact Hm].
    apply Forall_forall. intros v (r' & -> & Hr')%list_elem_of_fmap x Hx.
    apply list_elem_of_filter in Hr' as (_ & Hr').
    by eapply organize_score_bounds.
Qed.

End aphab_means.

(** ** aphab_per_style.py *)

Section per_style.
Import Frame Aphab AphabStyle.

(** A style code the dict [STYLES] names. *)
Lemma STYLES_lookup k : is_Some (STYLES !! k) ↔ 1 ≤ k ≤ 7.
Proof.
  rewrite <- elem_of_dom.
  assert (dom STYLES = list_to_set (seqZ 1 7)) as -> by reflexivity.
  rewrite elem_of_list_to_set, elem_of_seqZ. lia.
Qed.

Lemma name_style_Ok (w : wide raw_id) w' :
  name_style w = Ok w' ↔
    ∃ k, (w_id w).2 = Some k ∧ STYLES !! k = Some (w_id w').2
         ∧ (w_id w').1 = (w_id w).1 ∧ w_resp w' = w_resp w.
Proof.
  unfold name_style. destruct w as [[s [k|]] resp]; simpl.
  - destruct (STYLES !! k) as [name|] eqn:Hk.
    + split.
      * intros [= <-]. by exists k.
      * intros (k' & [= <-] & Hk' & Hs & Hr). destruct w' as [[s' n'] resp'].
        simpl in *. congruence.
    + split; [done|]. intros (k' & [= <-] & Hk' & _). congruence.
  - split; [done|]. by intros (k' & ? & _).
Qed.

(** The loop over the style column finishes exactly when every style cell
    holds one of the codes 1..7; each row then has the name of its code,
    and its subject and answers as before. At the first other cell the
    script stops, with [ValueError] for a cell that is no integer and
    [KeyError] for an integer outside 1..7. *)
Theorem style_codes_named_or_raised (t : list (wide raw_id)) :
  (∀ t', name_styles t = Ok t' ↔
     Forall2 (fun w w' =>
       ∃ k, (w_id w).2 = Some k ∧ STYLES !! k = Some (w_id w').2
            ∧ (w_id w').1 = (w_id w).1 ∧ w_resp w' = w_resp w) t t')
  ∧ ((∃ t', name_styles t = Ok t') ↔
       Forall (fun w => ∃ k, (w_id w).2 = Some k ∧ 1 ≤ k ≤ 7) t)
  ∧ (∀ good w rest, t = good ++ w :: rest →
       (∃ t', name_styles good = Ok t') →
       ((w_id w).2 = None → name_styles t = Raise ValueError)
       ∧ (∀ k, (w_id w).2 = Some k → ¬ 1 ≤ k ≤ 7 →
            name_styles t = Raise KeyError)).
Proof.
  assert (∀ t t', name_styles t = Ok t' ↔
     Forall2 (fun w w' =>
       ∃ k, (w_id w).2 = Some k ∧ STYLES !! k = Some (w_id w').2
            ∧ (w_id w').1 = (w_id w).1 ∧ w_resp w' = w_resp w) t t') as Hok.
  { clear t. induction t as [|w t IH]; intros t'; simpl.
    - split; [intros [= <-]; constructor|]. by intros ->%Forall2_nil_inv_l.
    - destruct (name_style w) as [w1|e] eqn:Hw; simpl.
      + destruct (name_styles t) as [t1|e] eqn:Ht; simpl.
        * split.
          -- intros [= <-]. constructor; [by apply name_style_Ok|by apply IH].
          -- intros (w2 & t2 & Hw2 & Ht2 & ->)%Forall2_cons_inv_l.
             apply name_style_Ok in Hw2. apply IH in Ht2. congruence.
        * split; [done|].
          intros (w2 & t2 & _ & Ht2 & ->)%Forall2_cons_inv_l.
          by apply IH in Ht2.
      + split; [done|].
        intros (w2 & t2 & Hw2 & _ & ->)%Forall2_cons_inv_l.
        apply name_style_Ok in Hw2. congruence. }
  split_and!.
  - apply Hok.
  - split.
    + intros [t' Ht']. apply Hok in Ht'.
      eapply Forall2_Forall_l; [exact Ht'|]. apply Forall_forall.
      intros w' _ w (k & Hk & Hn & _). exists k. split; [done|].
      apply STYLES_lookup. eauto.
    + induction 1 as [|w t0 (k & Hk & Hr) _ [t' IH]]; [by exists []|].
      apply STYLES_lookup in Hr as [name Hn]. simpl.
      unfold name_style at 1. rewrite Hk, Hn, IH. simpl. eauto.
  - intros good w rest -> [t' Hgood]. clear Hok.
    revert t' Hgood. induction good as [|g good IH]; intros t' Hgood.
    + simpl. unfold name_style. split.
      * by intros ->.
      * intros k -> Hk. destruct (STYLES !! k) eqn:E; [|done].
        destruct Hk. apply STYLES_lookup. eauto.
    + simpl in *. destruct (name_style g) as [g'|]; simpl in *; [|done].
      destruct (name_styles good) as [good'|] eqn:E; simpl in *; [|done].
      destruct (IH good' eq_refl) as [H1 H2]. split.
      * intros Hw. by rewrite H1.
      * intros k Hw Hk. by rewrite (H2 k).
Qed.

End per_style.

Section per_style_tables.
Import Frame Aphab AphabStyle.

Lemma column_as_aphab_row (w : wide styled_id) q :
  length (w_resp w) = 24%nat → 1 ≤ q ≤ 24 →
  column q (as_aphab_row w) = column q w.
Proof.
  intros Hlen Hq. unfold column, as_aphab_row. simpl.
  rewrite lookup_app_l by lia. done.
Qed.

(** The long rows of one style and one question. *)
Lemma style_block (t : list (wide styled_id)) style q :
  Forall (fun w => length (w_resp w) = 24%nat) t → 1 ≤ q ≤ 24 →
  snd <$> filter (fun p : string * row => p.1 = style)
    ((fun m : melted styled_id =>
        ((m_id m).2,
         add_scores (Melted (m_id m).1 (m_variable m) (m_value m))))
       <$> ((fun w => Melted (w_id w) q (column q w)) <$> t))
  = add_scores
      <$> ((fun w => Melted (w_id w) q (column q w)) <$> style_export t style).
Proof.
  intros Ht Hq. unfold style_export.
  induction Ht as [|w t Hw _ IH]; [done|].
  rewrite !fmap_cons, !filter_cons. simpl.
  destruct (decide ((w_id w).2 = style)) as [Hs|Hs].
  - rewrite !fmap_cons. simpl. rewrite column_as_aphab_row by done.
    f_equal. apply IH.
  - apply IH.
Qed.

Lemma style_rows (t : list (wide styled_id)) style vars :
  Forall (fun w => length (w_resp w) = 24%nat) t →
  Forall (fun q => 1 ≤ q ≤ 24) vars →
  snd <$> filter (fun p : string * row => p.1 = style)
    ((fun m : melted styled_id =>
        ((m_id m).2,
         add_scores (Melted (m_id m).1 (m_variable m) (m_value m))))
       <$> melt vars t)
  = add_scores <$> melt vars (style_export t style).
Proof.
  intros Ht Hvars. induction Hvars as [|q vars Hq _ IH]; [done|].
  change (melt (q :: vars) t)
    with (((fun w => Melted (w_id w) q (column q w)) <$> t) ++ melt vars t).
  change (melt (q :: vars) (style_export t style))
    with (((fun w => Melted (w_id w) q (column q w)) <$> style_export t style)
          ++ melt vars (style_export t style)).
  rewrite !fmap_app, filter_app, fmap_app, IH, style_block by done. done.
Qed.

Lemma score_style_aphab (t : list (wide styled_id)) (style : string) :
  Forall (fun w => length (w_resp w) = 24%nat) t →
  score_style (AphabStyle.organize t) style
    = score_table (Aphab.organize (style_export t style)).
Proof.
  intros Ht. unfold score_style, AphabStyle.organize, Aphab.organize.
  cbv zeta. f_equal. f_equal.
  pose proof (filter_melt (fun q => q ∈ seqZ 0 25) (seqZ 1 27)
                (style_export t style)) as Hf.
  cbv beta in Hf. rewrite Hf.
  change (filter (fun q => q ∈ seqZ 0 25) (seqZ 1 27)) with (seqZ 1 24).
  apply style_rows; [done|].
  apply Forall_forall. intros q Hq%elem_of_seqZ. lia.
Qed.

(** For each style the script computes what [aphab.py] computes on the
    subjects of that style. *)
Theorem per_style_tables_are_aphab_tables (t : list (wide styled_id))
    (style : string) :
  Forall (fun w => length (w_resp w) = 24%nat) t →
  score_style (AphabStyle.organize t) style
    = score_table (Aphab.organize (style_export t style)).
Proof.
  intros Ht. unfold score_style, AphabStyle.organize, Aphab.organize.
  cbv zeta. f_equal. f_equal.
  pose proof (filter_melt (fun q => q ∈ seqZ 0 25) (seqZ 1 27)
                (style_export t style)) as Hf.
  cbv beta in Hf. rewrite Hf.
  change (filter (fun q => q ∈ seqZ 0 25) (seqZ 1 27)) with (seqZ 1 24).
  apply style_rows; [done|].
  apply Forall_forall. intros q Hq%elem_of_seqZ. lia.
Qed.

Lemma name_styles_length (t : list (wide raw_id)) t' :
  name_styles t = Ok t' →
  Forall (fun w => length (w_resp w) = 24%nat) t →
  Forall (fun w => length (w_resp w) = 24%nat) t'.
Proof.
  revert t'. induction t as [|w t IH]; intros t'; simpl.
  - intros [= <-] _. constructor.
  - destruct (name_style w) as [w1|] eqn:Hw; simpl; [|done].
    destruct (name_styles t) as [t1|]; simpl; [|done].
    intros [= <-] [Hlen Ht]%Forall_cons. constructor; [|by apply IH].
    apply name_style_Ok in Hw as (k & _ & _ & _ & ->). done.
Qed.

(** The whole script: when it finishes, the tables it writes for a style
    are those the script [aphab.py] writes for the subjects of that style,
    and there is one pair of tables for each style name of the export. *)
Theorem per_style_run_is_aphab_per_style (t : list (wide raw_id)) outs :
  AphabStyle.run t = Ok outs →
  ∃ named, name_styles t = Ok named
    ∧ (∀ style, style ∈ fst <$> outs ↔ style ∈ (fun w => (w_id w).2) <$> named)
    ∧ ∀ style out, (style, out) ∈ outs →
        Aphab.run (style_export named style) = Ok out.
Proof.
  unfold AphabStyle.run, set_columns. case_decide as Ht; simpl; [|done].
  destruct (name_styles t) as [named|] eqn:Hn; simpl; [|done].
  intros [= <-]. exists named. split; [done|].
  pose proof (name_styles_length t named Hn Ht) as Hlen.
  unfold score_aphab. split.
  - intros style. rewrite <- list_fmap_compose.
    assert (fst ∘ (fun style =>
              (style, score_style (AphabStyle.organize named) style))
            <$> unique (fst <$> AphabStyle.organize named)
            = unique (fst <$> AphabStyle.organize named)) as ->.
    { etransitivity; [|apply list_fmap_id]. by apply list_fmap_ext. }
    rewrite elem_of_unique. unfold AphabStyle.organize.
    rewrite <- list_fmap_compose, !list_elem_of_fmap. split.
    + intros (m & -> & (w & Hw & _ & Hi & _)%elem_of_melt).
      exists w. simpl. by rewrite Hi.
    + intros (w & -> & Hw).
      exists (Melted (w_id w) 1 (column 1 w)). split; [done|].
      apply elem_of_melt. exists w. split_and!; try done.
      apply elem_of_seqZ. simpl. lia.
  - intros style out (st & [= -> ->] & _)%list_elem_of_fmap.
    rewrite score_style_aphab by done. apply run_shape.
    unfold style_export. apply Forall_fmap, Forall_forall.
    intros w (_ & Hw)%list_elem_of_filter. simpl.
    rewrite Forall_forall in Hlen. rewrite length_app, (Hlen w Hw). done.
Qed.

End per_style_tables.

Section per_style_samples.
Import Frame Aphab AphabStyle Samples.

Local Ltac by_evaluation := apply (bool_decide_unpack _); vm_compute; exact I.

Lemma per_style_tables_are_aphab_tables_witness :
  score_style (AphabStyle.organize by_style_named) "RIC_RT"
    = score_table (Aphab.organize (style_export by_style_named "RIC_RT")).
Proof.
  apply (per_style_tables_are_aphab_tables by_style_named "RIC_RT").
  by_evaluation.
Defined.

Lemma per_style_run_is_aphab_per_style_witness :
  ∃ named, name_styles by_style = Ok named
    ∧ (∀ style,
         style ∈ fst <$> score_aphab (AphabStyle.organize by_style_named)
         ↔ style ∈ (fun w => (w_id w).2) <$> named)
    ∧ ∀ style out,
        (style, out) ∈ score_aphab (AphabStyle.organize by_style_named) →
        Aphab.run (style_export named style) = Ok out.
Proof.
  apply (per_style_run_is_aphab_per_style by_style).
  vm_compute. reflexivity.
Defined.

End per_style_samples.

(** ** BtoA.py *)

Section btoa.
Import Frame BtoA.

Lemma question_key_perm : question_key ≡ₚ seqZ 1 24.
Proof. apply (bool_decide_unpack _). by vm_compute. Qed.

(** The reordered row has the answers to the questions 1..24, each once,
    in the order of the key; the subject and the three further columns of
    the export are not in it. *)
Theorem reorder_is_permutation (w : wide string) :
  length (w_resp w) = 27%nat →
  reorder w ≡ₚ take 24 (w_resp w)
  ∧ (∀ i q, question_key !! i = Some q →
       1 ≤ q ≤ 24 ∧ reorder w !! i = Some (column q w))
  ∧ NoDup question_key.
Proof.
  intros Hlen. split_and!.
  - unfold reorder. rewrite question_key_perm.
    destruct w as [s resp]. simpl in Hlen.
    do 28 (destruct resp as [|? resp]; try done).
  - intros i q Hi. split.
    + assert (q ∈ seqZ 1 24) as Hq%elem_of_seqZ; [|lia].
      rewrite <- question_key_perm. eapply list_elem_of_lookup_2, Hi.
    + unfold reorder. by rewrite list_lookup_fmap, Hi.
  - rewrite question_key_perm. apply NoDup_seqZ.
Qed.

Lemma reorder_is_permutation_witness :
  reorder Samples.uneven_s1 ≡ₚ take 24 (w_resp Samples.uneven_s1)
  ∧ (∀ i q, question_key !! i = Some q →
       1 ≤ q ≤ 24 ∧ reorder Samples.uneven_s1 !! i
                     = Some (column q Samples.uneven_s1))
  ∧ NoDup question_key.
Proof. apply (reorder_is_permutation Samples.uneven_s1). reflexivity. Defined.

End btoa.

(** ** Names of the output files *)

Section file_names.
Import FileNames.

Lemma split_slash_no_slash (s : string) :
  no_slash s → split_slash s = [s].
Proof.
  induction s as [|c s IH]; [done|]. simpl. intros [-> Hs].
  by rewrite (IH Hs).
Qed.

(** A path that ends in a slash and a name without slashes splits into
    some pieces and then that name. *)
Lemma split_slash_path (dir base : string) :
  no_slash base →
  ∃ piece pieces,
    split_slash (dir +:+ String slash base) = piece :: pieces ++ [base].
Proof.
  intros Hb. induction dir as [|c dir (piece & pieces & IH)].
  - exists EmptyString, []. simpl.
    change (Ascii.eqb slash slash) with true. simpl.
    by rewrite split_slash_no_slash.
  - simpl. rewrite IH. destruct (Ascii.eqb c slash).
    + by exists EmptyString, (piece :: pieces).
    + by exists (String c piece), pieces.
Qed.

Lemma after_last_slash_path (dir base : string) :
  no_slash base → after_last_slash (dir +:+ String slash base) = base.
Proof.
  intros Hb. unfold after_last_slash.
  destruct (split_slash_path dir base Hb) as (piece & pieces & ->).
  by rewrite app_comm_cons, last_snoc.
Qed.

Lemma length_append (a b : string) :
  String.length (a +:+ b) = (String.length a + String.length b)%nat.
Proof. induction a as [|c a IH]; simpl; [done|]. by rewrite IH. Qed.

Lemma substring_prefix (a b : string) :
  String.substring 0 (String.length a) (a +:+ b) = a.
Proof.
  induction a as [|c a IH]; simpl; [by destruct b|]. by rewrite IH.
Qed.

Lemma drop_suffix (a b : string) :
  String.substring 0 (String.length (a +:+ b) - String.length b) (a +:+ b) = a.
Proof.
  rewrite length_append, Nat.add_sub. apply substring_prefix.
Qed.

(** For a file [base.csv] chosen in any directory, [aphab.py] writes
    [base_SUBSCALE.csv] and [base_GLOBAL.csv], and [aphab_per_style.py]
    writes, for each style, the style name, [_SUBSCALE_] or [_GLOBAL_],
    and [base.csv]: the directory is not in the names. *)
Theorem output_names_from_base_name (dir base style : string) :
  no_slash base →
  let filename := dir +:+ String slash (base +:+ ".csv") in
  aphab_subscale_out filename = base +:+ "_SUBSCALE.csv"
  ∧ aphab_global_out filename = base +:+ "_GLOBAL.csv"
  ∧ style_subscale_out style filename
    = style +:+ "_SUBSCALE_" +:+ base +:+ ".csv"
  ∧ style_global_out style filename = style +:+ "_GLOBAL_" +:+ base +:+ ".csv".
Proof.
  intros Hb filename.
  assert (no_slash (base +:+ ".csv")) as Hbc.
  { clear filename. induction base as [|c base IH]; simpl; [done|].
    destruct Hb as [Hc Hb]. split; [done|]. by apply IH. }
  assert (after_last_slash filename = base +:+ ".csv") as Hlast
    by (by apply after_last_slash_path).
  unfold aphab_subscale_out, aphab_global_out, style_subscale_out,
    style_global_out, drop_last_4.
  rewrite Hlast. change 4%nat with (String.length ".csv").
  rewrite drop_suffix. done.
Qed.

Lemma output_names_from_base_name_witness :
  aphab_subscale_out "C:/data/study1.csv" = "study1_SUBSCALE.csv"
  ∧ aphab_global_out "C:/data/study1.csv" = "study1_GLOBAL.csv"
  ∧ style_subscale_out "ITE_R" "C:/data/study1.csv"
    = "ITE_R_SUBSCALE_study1.csv"
  ∧ style_global_out "ITE_R" "C:/data/study1.csv" = "ITE_R_GLOBAL_study1.csv".
Proof.
  apply (output_names_from_base_name "C:/data" "study1" "ITE_R").
  vm_compute. tauto.
Defined.

End file_names.
